(** * certmagic-oss: the encrypted key/value adapter and the lock protocol

    A shallow embedding of [storage/storage.go].  The Go methods of
    [*Storage] become functions that thread the state of the outside world
    (the object service reached through the SDK client, the wall clock)
    explicitly: a call [f args w] returns the Go results together with the
    world after the call.

    - Go's [error] is the inductive type [error]; a returned [error] is an
      [option error] ([None] for [nil]); a pair [(T, error)] of which exactly
      one is meaningful is a [Result T].
    - [time.Time] and [time.Duration] are integers counting nanoseconds.
    - The SDK client, [time.Now] and the blocking [select] of the lock loop
      are the interfaces [oss.Client] and [Runtime]; every method is defined
      against them.  The two loops, of [List] and of [Lock], run on fuel.
    - [Lock] is given twice: as the loop of the source, and cut into the
      steps between two interactions with the outside world ([lockStep]),
      so that several callers can take turns on one service
      ([runSchedule]).  [Lock_lockSteps] and [lockSteps_Lock] relate the two.
    - [Service] is an in-memory object service with fault injection that
      implements [oss.Client] and [Runtime]; [serviceClientAs] is the same
      client with the last write of an object reported in a chosen
      resolution, [lostAnswerClient] one whose puts are applied and
      answered with an error.

    The properties follow the definitions: the service, Store/Load, Delete,
    Unlock, Stat, the lock loop (markers, cancellation, error handling),
    several callers, List. *)

From Stdlib Require Import ZArith List Strings.Byte Lia.
From stdpp Require Import gmap strings list fin_maps sorting.

(** ** Go runtime types *)

Definition Time := Z.
Definition Duration := Z.
Bind Scope Z_scope with Time Duration.

Definition Second : Duration := 1000000000%Z.
Definition Minute : Duration := (60 * Second)%Z.

(** The zero value [time.Time{}]: January 1 of year 1, 00:00 UTC. *)
Definition zeroTime : Time := (-62135596800 * Second)%Z.

(** [t.Add d] and [t.Before u]. *)
Definition Add (t : Time) (d : Duration) : Time := (t + d)%Z.
Definition Before (t u : Time) : bool := (t <? u)%Z.

(** Go errors.  [Errorf msg err] is [fmt.Errorf(msg + ": %w", err)]. *)
Inductive error : Type :=
| ServiceError (StatusCode : Z) (Code : string)   (* *oss.ServiceError *)
| Canceled                                        (* context.Canceled *)
| DeadlineExceeded                                (* context.DeadlineExceeded *)
| ErrNotExist                                     (* fs.ErrNotExist *)
| ErrorString (msg : string)                      (* any other leaf error *)
| Errorf (msg : string) (err : error).

Inductive Result (A : Type) : Type :=
| Ok (a : A)
| Err (e : error).
Arguments Ok {A} a.
Arguments Err {A} e.

Module errors.

(** [errors.As(err, &serviceErr)] followed by [serviceErr.ErrorCode()]:
    the code of the first [*oss.ServiceError] in the chain of [err]. *)
Fixpoint AsServiceError (err : error) : option string :=
  match err with
  | ServiceError _ code => Some code
  | Errorf _ inner => AsServiceError inner
  | _ => None
  end.

(** [errors.Is(err, target)] for the leaf errors used as sentinels. *)
Fixpoint Is (err target : error) : bool :=
  match err with
  | Errorf _ inner => Is inner target
  | Canceled => match target with Canceled => true | _ => false end
  | DeadlineExceeded => match target with DeadlineExceeded => true | _ => false end
  | ErrNotExist => match target with ErrNotExist => true | _ => false end
  | _ => false
  end.

End errors.

(** [errors.As(err, &serviceErr) && serviceErr.ErrorCode() == code]. *)
Definition hasErrorCode (err : error) (code : string) : bool :=
  match errors.AsServiceError err with
  | Some c => String.eqb c code
  | None => false
  end.

Module context.

(** A context is known by the instant at which its [Done] channel closes:
    never for the background context, the instant of the [cancel] call
    for a cancellable one, the deadline otherwise. *)
Inductive Context : Type :=
| Background
| WithCancel (cancelledAt : Time)
| WithDeadline (deadline : Time).
Arguments WithCancel cancelledAt%_Z.
Arguments WithDeadline deadline%_Z.

Definition Done (ctx : Context) (now : Time) : bool :=
  match ctx with
  | Background => false
  | WithCancel t | WithDeadline t => (t <=? now)%Z
  end.

(** [ctx.Err()] once [Done] is closed. *)
Definition Err (ctx : Context) : error :=
  match ctx with
  | WithDeadline _ => DeadlineExceeded
  | _ => Canceled
  end.

End context.

(** ** The SDK surface the package uses *)

Module PutObjectRequest.
Record t := mk { Bucket : string; Key : string; Body : list byte;
                 ForbidOverwrite : option string }.
End PutObjectRequest.

Module GetObjectRequest.
Record t := mk { Bucket : string; Key : string }.
End GetObjectRequest.

Module GetObjectResult.
(** [Body] is what [io.ReadAll(result.Body)] yields. *)
Record t := mk { Body : Result (list byte) }.
End GetObjectResult.

Module DeleteObjectRequest.
Record t := mk { Bucket : string; Key : string }.
End DeleteObjectRequest.

Module HeadObjectRequest.
Record t := mk { Bucket : string; Key : string }.
End HeadObjectRequest.

Module HeadObjectResult.
Record t := mk { LastModified : option Time; ContentLength : Z }.
End HeadObjectResult.

Module ObjectProperties.
Record t := mk { Key : string; Size : Z; LastModified : Time }.
End ObjectProperties.

(** The continuation token is opaque to the caller. *)
Definition ContinuationToken := nat.

Module ListObjectsV2Request.
Record t := mk { Bucket : string; Prefix : string; Delimiter : option string;
                 ContinuationToken : option ContinuationToken }.
End ListObjectsV2Request.

Module ListObjectsV2Result.
Record t := mk { Contents : list ObjectProperties.t;
                 CommonPrefixes : list string;
                 IsTruncated : bool;
                 NextContinuationToken : option ContinuationToken }.
End ListObjectsV2Result.

Module oss.

(** [*oss.Client] over a world [W]. *)
Record Client (W : Type) := mkClient {
  PutObject : context.Context → PutObjectRequest.t → W → Result unit * W;
  GetObject : context.Context → GetObjectRequest.t → W → Result GetObjectResult.t * W;
  DeleteObject : context.Context → DeleteObjectRequest.t → W → Result unit * W;
  HeadObject : context.Context → HeadObjectRequest.t → W → Result HeadObjectResult.t * W;
  ListObjectsV2 : context.Context → ListObjectsV2Request.t → W
                  → Result ListObjectsV2Result.t * W
}.
Arguments PutObject {W} _ _ _ _.
Arguments GetObject {W} _ _ _ _.
Arguments DeleteObject {W} _ _ _ _.
Arguments HeadObject {W} _ _ _ _.
Arguments ListObjectsV2 {W} _ _ _ _.

(** [ListObjectsV2Paginator]: [HasNext] holds before the first page and
    while the last page was truncated; [NextPage] resumes from the token
    of the last page. *)
Record ListObjectsV2Paginator := mkPaginator {
  request : ListObjectsV2Request.t;
  continueToken : option ContinuationToken;
  firstPage : bool;
  isTruncated : bool
}.

Definition NewListObjectsV2Paginator (req : ListObjectsV2Request.t)
  : ListObjectsV2Paginator :=
  {| request := req;
     continueToken := ListObjectsV2Request.ContinuationToken req;
     firstPage := true;
     isTruncated := false |}.

Definition HasNext (p : ListObjectsV2Paginator) : bool :=
  firstPage p || isTruncated p.

Definition NextPage {W} (c : Client W) (ctx : context.Context)
    (p : ListObjectsV2Paginator) (w : W)
  : Result ListObjectsV2Result.t * ListObjectsV2Paginator * W :=
  let req := request p in
  let req' := {| ListObjectsV2Request.Bucket := ListObjectsV2Request.Bucket req;
                 ListObjectsV2Request.Prefix := ListObjectsV2Request.Prefix req;
                 ListObjectsV2Request.Delimiter := ListObjectsV2Request.Delimiter req;
                 ListObjectsV2Request.ContinuationToken := continueToken p |} in
  match ListObjectsV2 c ctx req' w with
  | (Err e, w') => (Err e, p, w')
  | (Ok page, w') =>
      (Ok page,
       {| request := req;
          continueToken := ListObjectsV2Result.NextContinuationToken page;
          firstPage := false;
          isTruncated := ListObjectsV2Result.IsTruncated page |},
       w')
  end.

End oss.

(** [time.Now().UTC()] and the blocking
    [select { case <-time.After(d): ...; case <-ctx.Done(): ... }],
    whose outcome is [true] when the timer branch is taken. *)
Class Runtime (W : Type) := {
  Now : W → Time;
  SelectAfterOrDone : context.Context → Duration → W → bool * W
}.

Module tink.

(** [tink.AEAD]: both methods take the payload and the associated data. *)
Record AEAD := mkAEAD {
  Encrypt : list byte → list byte → Result (list byte);
  Decrypt : list byte → list byte → Result (list byte)
}.

End tink.

(** [certmagic.KeyInfo]. *)
Module KeyInfo.
Record t := mk { Key : string; Modified : Time; Size : Z; IsTerminal : bool }.
(** The zero value [var keyInfo certmagic.KeyInfo]. *)
Definition zero : t := mk "" zeroTime 0 false.
End KeyInfo.

(** ** Package [storage] *)

(** [LockExpiration] is the duration before which a lock is considered
    expired; [LockPollInterval] the interval between checks of the lock. *)
Definition LockExpiration : Duration := (1 * Minute)%Z.
Definition LockPollInterval : Duration := (1 * Second)%Z.

Record Storage (W : Type) := mkStorage {
  client : oss.Client W;
  bucketName : string;
  aead : tink.AEAD
}.
Arguments mkStorage {W} _ _ _.
Arguments client {W} _.
Arguments bucketName {W} _.
Arguments aead {W} _.

(** [cleartext] implements [tink.AEAD] but keeps the object in plaintext. *)
Definition cleartext : tink.AEAD :=
  {| tink.Encrypt := λ plaintext _, Ok plaintext;
     tink.Decrypt := λ ciphertext _, Ok ciphertext |}.

(** [[]byte(key)]. *)
Definition bytesOf (key : string) : list byte := String.list_byte_of_string key.

Section Methods.

Context {W : Type}.

Definition objLockName (s : Storage W) (key : string) : string :=
  key +:+ ".lock".

(** [Store] puts [value] at [key]. *)
Definition Store (s : Storage W) (ctx : context.Context) (key : string)
    (value : list byte) (w : W) : option error * W :=
  match tink.Encrypt (aead s) value (bytesOf key) with
  | Err err => (Some (Errorf ("encrypting object " +:+ key) err), w)
  | Ok encrypted =>
      match oss.PutObject (client s) ctx
              {| PutObjectRequest.Bucket := bucketName s;
                 PutObjectRequest.Key := key;
                 PutObjectRequest.Body := encrypted;
                 PutObjectRequest.ForbidOverwrite := None |} w with
      | (Err err, w') => (Some (Errorf ("writing object " +:+ key) err), w')
      | (Ok _, w') => (None, w')
      end
  end.

(** [Load] retrieves the value at [key]. *)
Definition Load (s : Storage W) (ctx : context.Context) (key : string) (w : W)
  : Result (list byte) * W :=
  match oss.GetObject (client s) ctx
          {| GetObjectRequest.Bucket := bucketName s;
             GetObjectRequest.Key := key |} w with
  | (Err err, w') =>
      if hasErrorCode err "NoSuchKey" then (Err ErrNotExist, w')
      else (Err (Errorf ("loading object " +:+ key) err), w')
  | (Ok result, w') =>
      match GetObjectResult.Body result with
      | Err err => (Err (Errorf ("reading object " +:+ key) err), w')
      | Ok encrypted =>
          match tink.Decrypt (aead s) encrypted (bytesOf key) with
          | Err err => (Err (Errorf ("decrypting object " +:+ key) err), w')
          | Ok decrypted => (Ok decrypted, w')
          end
      end
  end.

(** [Delete] deletes [key]; a "not found" answer is ignored. *)
Definition Delete (s : Storage W) (ctx : context.Context) (key : string) (w : W)
  : option error * W :=
  match oss.DeleteObject (client s) ctx
          {| DeleteObjectRequest.Bucket := bucketName s;
             DeleteObjectRequest.Key := key |} w with
  | (Err err, w') =>
      if hasErrorCode err "NoSuchKey" then (None, w')
      else (Some (Errorf ("deleting object " +:+ key) err), w')
  | (Ok _, w') => (None, w')
  end.

(** [Exists] returns true if the key exists and there was no error
    checking. *)
Definition Exists (s : Storage W) (ctx : context.Context) (key : string) (w : W)
  : bool * W :=
  match oss.HeadObject (client s) ctx
          {| HeadObjectRequest.Bucket := bucketName s;
             HeadObjectRequest.Key := key |} w with
  | (Err err, w') => if hasErrorCode err "NoSuchKey" then (false, w') else (false, w')
  | (Ok _, w') => (true, w')
  end.

(** [Stat] returns information about [key].  Go returns the pair
    [(keyInfo, err)] on every path. *)
Definition Stat (s : Storage W) (ctx : context.Context) (key : string) (w : W)
  : KeyInfo.t * option error * W :=
  let keyInfo := KeyInfo.zero in
  match oss.HeadObject (client s) ctx
          {| HeadObjectRequest.Bucket := bucketName s;
             HeadObjectRequest.Key := key |} w with
  | (Err err, w') =>
      if hasErrorCode err "NoSuchKey" then (keyInfo, Some ErrNotExist, w')
      else (keyInfo, Some (Errorf ("loading attributes for " +:+ key) err), w')
  | (Ok result, w') =>
      let modified := match HeadObjectResult.LastModified result with
                      | Some t => t
                      | None => KeyInfo.Modified keyInfo
                      end in
      ({| KeyInfo.Key := key;
          KeyInfo.Modified := modified;
          KeyInfo.Size := HeadObjectResult.ContentLength result;
          KeyInfo.IsTerminal := true |}, None, w')
  end.

(** [Unlock] releases the lock for [key]: the delete runs under
    [context.Background()], whatever [ctx] is. *)
Definition Unlock (s : Storage W) (ctx : context.Context) (key : string) (w : W)
  : option error * W :=
  let lockKey := objLockName s key in
  let deleteCtx := context.Background in
  match oss.DeleteObject (client s) deleteCtx
          {| DeleteObjectRequest.Bucket := bucketName s;
             DeleteObjectRequest.Key := lockKey |} w with
  | (Err err, w') =>
      if hasErrorCode err "NoSuchKey" then (None, w')
      else (Some (Errorf ("deleting lock " +:+ lockKey) err), w')
  | (Ok _, w') => (None, w')
  end.

(** [List] returns all keys that match [prefix].  The [for p.HasNext()]
    loop runs on [fuel]: one unit per page fetched; [None] when the fuel
    runs out before the paginator is exhausted. *)
Fixpoint ListPages (fuel : nat) (s : Storage W) (ctx : context.Context)
    (p : oss.ListObjectsV2Paginator) (names : list string) (w : W)
  : option (Result (list string)) * W :=
  if oss.HasNext p then
    match fuel with
    | O => (None, w)
    | S fuel' =>
        match oss.NextPage (client s) ctx p w with
        | (Err err, _, w') => (Some (Err (Errorf "listing objects" err)), w')
        | (Ok page, p', w') =>
            ListPages fuel' s ctx p'
              (names ++ (ObjectProperties.Key <$> ListObjectsV2Result.Contents page)) w'
        end
    end
  else (Some (Ok names), w).

Definition List (fuel : nat) (s : Storage W) (ctx : context.Context)
    (prefix : string) (recursive : bool) (w : W)
  : option (Result (list string)) * W :=
  let request :=
    {| ListObjectsV2Request.Bucket := bucketName s;
       ListObjectsV2Request.Prefix := prefix;
       ListObjectsV2Request.Delimiter := if negb recursive then Some "/" else None;
       ListObjectsV2Request.ContinuationToken := None |} in
  ListPages fuel s ctx (oss.NewListObjectsV2Paginator request) [] w.

(** *** Lock *)

(** The conditional put answered "already exists". *)
Definition lockAlreadyExists (err : error) : bool :=
  hasErrorCode err "PreconditionFailed"
  || hasErrorCode err "ObjectAlreadyExists"
  || hasErrorCode err "FileAlreadyExists".

(** [result.LastModified != nil &&
     result.LastModified.Add(LockExpiration).Before(time.Now().UTC())]. *)
Definition lockExpired (result : HeadObjectResult.t) (now : Time) : bool :=
  match HeadObjectResult.LastModified result with
  | Some lastModified => Before (Add lastModified LockExpiration) now
  | None => false
  end.

(** [deleteErr == nil || (errors.As(deleteErr, &serviceErr) &&
     serviceErr.ErrorCode() == "NoSuchKey")]. *)
Definition lockDeleted (r : Result unit) : bool :=
  match r with
  | Ok _ => true
  | Err deleteErr => hasErrorCode deleteErr "NoSuchKey"
  end.

Definition lockPutRequest (s : Storage W) (key : string) : PutObjectRequest.t :=
  {| PutObjectRequest.Bucket := bucketName s;
     PutObjectRequest.Key := objLockName s key;
     PutObjectRequest.Body := [];
     PutObjectRequest.ForbidOverwrite := Some "true" |}.

Definition lockHeadRequest (s : Storage W) (key : string) : HeadObjectRequest.t :=
  {| HeadObjectRequest.Bucket := bucketName s;
     HeadObjectRequest.Key := objLockName s key |}.

Definition lockDeleteRequest (s : Storage W) (key : string) : DeleteObjectRequest.t :=
  {| DeleteObjectRequest.Bucket := bucketName s;
     DeleteObjectRequest.Key := objLockName s key |}.

Context `{!Runtime W}.

(** [Lock] acquires the lock for [key].  One unit of [fuel] is one turn
    of the [for] loop; the result is [None] when the fuel runs out with
    the call still looping, [Some err] when the call returns [err]. *)
Fixpoint Lock (fuel : nat) (s : Storage W) (ctx : context.Context) (key : string)
    (w : W) : option (option error) * W :=
  match fuel with
  | O => (None, w)
  | S fuel' =>
      let lockKey := objLockName s key in
      let poll (w : W) : option (option error) * W :=
        match SelectAfterOrDone ctx LockPollInterval w with
        | (true, w') => Lock fuel' s ctx key w'
        | (false, w') => (Some (Some (context.Err ctx)), w')
        end in
      match oss.PutObject (client s) ctx (lockPutRequest s key) w with
      | (Ok _, w1) => (Some None, w1)
      | (Err err, w1) =>
          if lockAlreadyExists err then
            match oss.HeadObject (client s) ctx (lockHeadRequest s key) w1 with
            | (Err _, w2) => poll w2
            | (Ok result, w2) =>
                if lockExpired result (Now w2) then
                  match oss.DeleteObject (client s) ctx (lockDeleteRequest s key) w2 with
                  | (deleted, w3) =>
                      if lockDeleted deleted then Lock fuel' s ctx key w3
                      else poll w3
                  end
                else poll w2
            end
          else (Some (Some (Errorf ("creating lock " +:+ lockKey) err)), w1)
      end
  end.

(** The three identical [select] statements of the loop, seen from a turn
    that has [fuel] turns left after it: wait for [LockPollInterval] and
    try again, or return [ctx.Err()] when the context is done first. *)
Definition lockWait (fuel : nat) (s : Storage W) (ctx : context.Context) (key : string)
    (w : W) : option (option error) * W :=
  match SelectAfterOrDone ctx LockPollInterval w with
  | (true, w') => Lock fuel s ctx key w'
  | (false, w') => (Some (Some (context.Err ctx)), w')
  end.

(** The same loop cut at its interactions with the outside world, for
    runs in which several callers take turns: a caller is about to issue
    the conditional put, the probe or the delete of the expired marker,
    is blocked in the [select], or has returned. *)
Inductive LockPoint : Type :=
| AtPut
| AtHead
| AtDelete
| AtSelect
| Returned (err : option error).

Definition lockStep (s : Storage W) (ctx : context.Context) (key : string)
    (pt : LockPoint) (w : W) : LockPoint * W :=
  match pt with
  | AtPut =>
      match oss.PutObject (client s) ctx (lockPutRequest s key) w with
      | (Ok _, w') => (Returned None, w')
      | (Err err, w') =>
          if lockAlreadyExists err then (AtHead, w')
          else (Returned (Some (Errorf ("creating lock " +:+ objLockName s key) err)), w')
      end
  | AtHead =>
      match oss.HeadObject (client s) ctx (lockHeadRequest s key) w with
      | (Err _, w') => (AtSelect, w')
      | (Ok result, w') =>
          if lockExpired result (Now w') then (AtDelete, w') else (AtSelect, w')
      end
  | AtDelete =>
      match oss.DeleteObject (client s) ctx (lockDeleteRequest s key) w with
      | (deleted, w') => if lockDeleted deleted then (AtPut, w') else (AtSelect, w')
      end
  | AtSelect =>
      match SelectAfterOrDone ctx LockPollInterval w with
      | (true, w') => (AtPut, w')
      | (false, w') => (Returned (Some (context.Err ctx)), w')
      end
  | Returned err => (Returned err, w)
  end.

(** A caller running alone for [n] steps. *)
Fixpoint lockSteps (n : nat) (s : Storage W) (ctx : context.Context) (key : string)
    (pt : LockPoint) (w : W) : LockPoint * W :=
  match n with
  | O => (pt, w)
  | S n' =>
      match pt with
      | Returned _ => (pt, w)
      | _ => let '(pt', w') := lockStep s ctx key pt w in
             lockSteps n' s ctx key pt' w'
      end
  end.

(** Several callers sharing the world.  A schedule names, turn by turn,
    the caller that takes its next step. *)
Record Caller := mkCaller {
  callerCtx : context.Context;
  callerKey : string;
  callerAt : LockPoint
}.

Definition stepCaller (s : Storage W) (c : Caller) (w : W) : Caller * W :=
  let '(pt', w') := lockStep s (callerCtx c) (callerKey c) (callerAt c) w in
  ({| callerCtx := callerCtx c; callerKey := callerKey c; callerAt := pt' |}, w').

Fixpoint runSchedule (s : Storage W) (schedule : list nat) (callers : list Caller)
    (w : W) : list Caller * W :=
  match schedule with
  | [] => (callers, w)
  | i :: rest =>
      match callers !! i with
      | None => runSchedule s rest callers w
      | Some c =>
          let '(c', w') := stepCaller s c w in
          runSchedule s rest (<[i := c']> callers) w'
      end
  end.

End Methods.

(** ** An in-memory object service

    The service keeps, per bucket and key, the stored bytes and the instant
    of the last write.  It answers as the package expects of the remote
    service: "NoSuchKey" for a missing object on get and head,
    "FileAlreadyExists" for a put that forbids overwriting an existing
    object, and a listing in key order in which, when a delimiter is given,
    the keys that contain the delimiter after the prefix are rolled up into
    common prefixes and left out of [Contents].

    - [faults] is a queue of injected answers, one per request that reaches
      the service: [Some err] makes the request fail with [err] and have no
      effect, [None] lets it through.
    - A request issued under a context that is already done fails with the
      context's error and never reaches the service.
    - [strictDelete] tells whether deleting a missing object answers
      "NoSuchKey" or succeeds silently.
    - [maxKeys] is the number of entries per listing page.
    - [clock] is the wall clock; requests take no time, a [select] ends at
      the earlier of the timer and the closing of [Done]. *)

Module Object.
Record t := mk { Content : list byte; LastModified : Time }.
End Object.

Record Service := mkService {
  objects : gmap (string * string) Object.t;
  clock : Time;
  faults : list (option error);
  strictDelete : bool;
  maxKeys : nat
}.

Definition setObjects (svc : Service) (m : gmap (string * string) Object.t) : Service :=
  {| objects := m; clock := clock svc; faults := faults svc;
     strictDelete := strictDelete svc; maxKeys := maxKeys svc |}.

Definition setClock (svc : Service) (t : Time) : Service :=
  {| objects := objects svc; clock := t; faults := faults svc;
     strictDelete := strictDelete svc; maxKeys := maxKeys svc |}.

Definition setFaults (svc : Service) (fs : list (option error)) : Service :=
  {| objects := objects svc; clock := clock svc; faults := fs;
     strictDelete := strictDelete svc; maxKeys := maxKeys svc |}.

Definition noSuchKey : error := ServiceError 404 "NoSuchKey".
Definition fileAlreadyExists : error := ServiceError 409 "FileAlreadyExists".

(** The path every request takes: context check, then fault injection,
    then the service proper. *)
Definition request {A : Type} (ctx : context.Context)
    (serve : Service → Result A * Service) (svc : Service) : Result A * Service :=
  if context.Done ctx (clock svc) then
    (Err (Errorf "operation error" (context.Err ctx)), svc)
  else
    match faults svc with
    | Some err :: rest => (Err err, setFaults svc rest)
    | None :: rest => serve (setFaults svc rest)
    | [] => serve svc
    end.

Definition servePut (req : PutObjectRequest.t) (svc : Service) : Result unit * Service :=
  let k := (PutObjectRequest.Bucket req, PutObjectRequest.Key req) in
  let forbid := match PutObjectRequest.ForbidOverwrite req with
                | Some v => String.eqb v "true"
                | None => false
                end in
  match objects svc !! k with
  | Some _ =>
      if forbid then (Err fileAlreadyExists, svc)
      else (Ok tt, setObjects svc
                     (<[k := Object.mk (PutObjectRequest.Body req) (clock svc)]> (objects svc)))
  | None =>
      (Ok tt, setObjects svc
                (<[k := Object.mk (PutObjectRequest.Body req) (clock svc)]> (objects svc)))
  end.

Definition serveGet (req : GetObjectRequest.t) (svc : Service)
  : Result GetObjectResult.t * Service :=
  match objects svc !! (GetObjectRequest.Bucket req, GetObjectRequest.Key req) with
  | Some o => (Ok (GetObjectResult.mk (Ok (Object.Content o))), svc)
  | None => (Err noSuchKey, svc)
  end.

Definition serveDelete (req : DeleteObjectRequest.t) (svc : Service)
  : Result unit * Service :=
  let k := (DeleteObjectRequest.Bucket req, DeleteObjectRequest.Key req) in
  match objects svc !! k with
  | Some _ => (Ok tt, setObjects svc (delete k (objects svc)))
  | None => if strictDelete svc then (Err noSuchKey, svc) else (Ok tt, svc)
  end.

Definition serveHead (req : HeadObjectRequest.t) (svc : Service)
  : Result HeadObjectResult.t * Service :=
  match objects svc !! (HeadObjectRequest.Bucket req, HeadObjectRequest.Key req) with
  | Some o =>
      (Ok (HeadObjectResult.mk (Some (Object.LastModified o))
             (Z.of_nat (length (Object.Content o)))), svc)
  | None => (Err noSuchKey, svc)
  end.

(** *** Listing *)

Inductive Entry : Type :=
| EObject (props : ObjectProperties.t)
| ECommonPrefix (p : string).

(** The keys of a bucket with their objects, in key order. *)
Definition bucketObjects (svc : Service) (bucket : string) : list (string * Object.t) :=
  merge_sort (λ a b, Is_true (String.leb a.1 b.1))
    (omap (λ kv, if String.eqb (fst (fst kv)) bucket then Some (snd (fst kv), snd kv) else None)
          (map_to_list (objects svc))).

(** The common prefix a key is rolled up into: the key up to and including
    the first occurrence of the delimiter after the prefix. *)
Definition rollup (prefix : string) (delimiter : option string) (key : string)
  : option string :=
  match delimiter with
  | Some d =>
      if String.eqb d "" then None
      else match String.index (String.length prefix) d key with
           | Some i => Some (String.substring 0 (i + String.length d) key)
           | None => None
           end
  | None => None
  end.

Definition entryOf (prefix : string) (delimiter : option string)
    (kv : string * Object.t) : Entry :=
  match rollup prefix delimiter kv.1 with
  | Some p => ECommonPrefix p
  | None => EObject (ObjectProperties.mk kv.1 (Z.of_nat (length (Object.Content kv.2)))
                       (Object.LastModified kv.2))
  end.

Definition sameCommonPrefix (e e' : Entry) : bool :=
  match e, e' with
  | ECommonPrefix p, ECommonPrefix q => String.eqb p q
  | _, _ => false
  end.

(** Every common prefix is reported once, at its first occurrence. *)
Fixpoint dedupPrefixes (seen : list Entry) (l : list Entry) : list Entry :=
  match l with
  | [] => []
  | e :: rest =>
      if existsb (sameCommonPrefix e) seen then dedupPrefixes seen rest
      else e :: dedupPrefixes (e :: seen) rest
  end.

Definition listing (svc : Service) (bucket prefix : string) (delimiter : option string)
  : list Entry :=
  dedupPrefixes []
    (entryOf prefix delimiter
       <$> filter (λ kv, Is_true (String.prefix prefix kv.1)) (bucketObjects svc bucket)).

Definition entryContents (l : list Entry) : list ObjectProperties.t :=
  omap (λ e, match e with EObject props => Some props | ECommonPrefix _ => None end) l.

Definition entryPrefixes (l : list Entry) : list string :=
  omap (λ e, match e with ECommonPrefix p => Some p | EObject _ => None end) l.

(** The keys of the objects among the entries, in order. *)
Definition listedKeys (l : list Entry) : list string :=
  ObjectProperties.Key <$> entryContents l.

Definition serveList (req : ListObjectsV2Request.t) (svc : Service)
  : Result ListObjectsV2Result.t * Service :=
  let all := listing svc (ListObjectsV2Request.Bucket req)
               (ListObjectsV2Request.Prefix req) (ListObjectsV2Request.Delimiter req) in
  let start := default 0 (ListObjectsV2Request.ContinuationToken req) in
  let page := take (maxKeys svc) (drop start all) in
  let next := start + maxKeys svc in
  let truncated := bool_decide (next < length all) in
  (Ok {| ListObjectsV2Result.Contents := entryContents page;
         ListObjectsV2Result.CommonPrefixes := entryPrefixes page;
         ListObjectsV2Result.IsTruncated := truncated;
         ListObjectsV2Result.NextContinuationToken :=
           if truncated then Some next else None |}, svc).

Definition serviceClient : oss.Client Service :=
  {| oss.PutObject := λ ctx req, request ctx (servePut req);
     oss.GetObject := λ ctx req, request ctx (serveGet req);
     oss.DeleteObject := λ ctx req, request ctx (serveDelete req);
     oss.HeadObject := λ ctx req, request ctx (serveHead req);
     oss.ListObjectsV2 := λ ctx req, request ctx (serveList req) |}.

(** The blocking [select] of the lock loop against the service clock.  The
    [Done] branch is taken when the context closes strictly before the
    timer fires; when both are ready at the same instant Go may take either
    branch, and the timer branch is taken here. *)
Definition serviceSelect (ctx : context.Context) (d : Duration) (svc : Service)
  : bool * Service :=
  match ctx with
  | context.Background => (true, setClock svc (clock svc + d)%Z)
  | context.WithCancel t | context.WithDeadline t =>
      if (t <? clock svc + d)%Z then (false, setClock svc (Z.max (clock svc) t))
      else (true, setClock svc (clock svc + d)%Z)
  end.

#[export] Instance serviceRuntime : Runtime Service :=
  {| Now := clock; SelectAfterOrDone := serviceSelect |}.

(** A storage handle on the in-memory service. *)
Definition storageOn (bucket : string) (a : tink.AEAD) : Storage Service :=
  {| client := serviceClient; bucketName := bucket; aead := a |}.

(** An empty service at instant [t]. *)
Definition emptyService (t : Time) : Service :=
  {| objects := ∅; clock := t; faults := []; strictDelete := true; maxKeys := 100 |}.
Arguments emptyService t%_Z.

(** *** The resolution of the reported last write

    The service may report the instant of the last write of an object in a
    coarser resolution than it keeps it: the [Last-Modified] header of a
    head answer is an HTTP date, in whole seconds.  [serveHeadAs report]
    answers a head request with [report t] for an object written at [t];
    [wholeSeconds] is the report of an HTTP date, the identity that of
    [serveHead]. *)
Definition wholeSeconds (t : Time) : Time := (t / Second * Second)%Z.

Definition serveHeadAs (report : Time → Time) (req : HeadObjectRequest.t) (svc : Service)
  : Result HeadObjectResult.t * Service :=
  match objects svc !! (HeadObjectRequest.Bucket req, HeadObjectRequest.Key req) with
  | Some o =>
      (Ok (HeadObjectResult.mk (Some (report (Object.LastModified o)))
             (Z.of_nat (length (Object.Content o)))), svc)
  | None => (Err noSuchKey, svc)
  end.

Definition serviceClientAs (report : Time → Time) : oss.Client Service :=
  {| oss.PutObject := λ ctx req, request ctx (servePut req);
     oss.GetObject := λ ctx req, request ctx (serveGet req);
     oss.DeleteObject := λ ctx req, request ctx (serveDelete req);
     oss.HeadObject := λ ctx req, request ctx (serveHeadAs report req);
     oss.ListObjectsV2 := λ ctx req, request ctx (serveList req) |}.

Definition storageAs (report : Time → Time) (bucket : string) (a : tink.AEAD)
  : Storage Service :=
  {| client := serviceClientAs report; bucketName := bucket; aead := a |}.

(** *** A put whose answer is lost

    A client on the same service whose put requests reach the service and
    take effect there, while the answer never arrives: the caller gets an
    error for a put that was applied. *)
Definition lostAnswer : error := ErrorString "read: connection reset by peer".

Definition lostAnswerClient : oss.Client Service :=
  {| oss.PutObject := λ ctx req svc, (Err lostAnswer, (request ctx (servePut req) svc).2);
     oss.GetObject := λ ctx req, request ctx (serveGet req);
     oss.DeleteObject := λ ctx req, request ctx (serveDelete req);
     oss.HeadObject := λ ctx req, request ctx (serveHead req);
     oss.ListObjectsV2 := λ ctx req, request ctx (serveList req) |}.

(** A codec that is not the identity, standing in for a keyed one in the
    examples: sealing prepends the associated data, opening checks that the
    payload starts with it and strips it. *)
Fixpoint bytesEqb (a b : list byte) : bool :=
  match a, b with
  | [], [] => true
  | x :: a', y :: b' => Byte.eqb x y && bytesEqb a' b'
  | _, _ => false
  end.

Definition tagging : tink.AEAD :=
  {| tink.Encrypt := λ plaintext ad, Ok (ad ++ plaintext);
     tink.Decrypt := λ ciphertext ad,
       if bytesEqb (take (length ad) ciphertext) ad
       then Ok (drop (length ad) ciphertext)
       else Err (ErrorString "decryption failed") |}.

(** The contract of [tink.AEAD] the round trip relies on: what was sealed
    under some associated data opens under the same associated data. *)
Definition opensWhatItSeals (a : tink.AEAD) : Prop :=
  ∀ plaintext ad ciphertext,
    tink.Encrypt a plaintext ad = Ok ciphertext →
    tink.Decrypt a ciphertext ad = Ok plaintext.

(** ** Construction: [NewStorage] *)

Module Config.
Record t := mk {
  AEAD : option tink.AEAD;
  BucketName : string;
  Region : string;
  Endpoint : string;
  AccessKeyID : string;
  AccessKeySecret : string
}.
End Config.

(** What [NewStorage] hands to [oss.NewClient]: the static credentials
    (key id, key secret, security token), the region and, when one was
    set with [WithEndpoint], the endpoint. *)
Module ClientConfig.
Record t := mk {
  AccessKeyID : string;
  AccessKeySecret : string;
  SecurityToken : string;
  Region : string;
  Endpoint : option string
}.
Definition WithEndpoint (cfg : t) (endpoint : string) : t :=
  mk (AccessKeyID cfg) (AccessKeySecret cfg) (SecurityToken cfg) (Region cfg) (Some endpoint).
End ClientConfig.

(** [strings.HasPrefix(s, prefix)]. *)
Definition HasPrefix (s prefix : string) : bool := String.prefix prefix s.

(** [NewStorage]: the client is built by [NewClient] from the credentials,
    the region and the endpoint, which gets the scheme "https://" when it
    has none; the codec is the configured one, [cleartext] when there is
    none.  The returned error is always [nil]. *)
Definition NewStorage {W : Type} (NewClient : ClientConfig.t → oss.Client W)
    (ctx : context.Context) (config : Config.t) : Storage W * option error :=
  let cfg := ClientConfig.mk (Config.AccessKeyID config) (Config.AccessKeySecret config) ""
               (Config.Region config) None in
  let cfg :=
    if negb (String.eqb (Config.Endpoint config) "") then
      let endpoint := Config.Endpoint config in
      let endpoint :=
        if negb (HasPrefix endpoint "http://") && negb (HasPrefix endpoint "https://")
        then "https://" +:+ endpoint
        else endpoint in
      ClientConfig.WithEndpoint cfg endpoint
    else cfg in
  let client := NewClient cfg in
  let kp := match Config.AEAD config with
            | Some a => a
            | None => cleartext
            end in
  (mkStorage client (Config.BucketName config) kp, None).

(** ** Package [certmagicoss]: the Caddy module *)

(** [CaddyStorageOSS] implements a caddy storage backend. *)
Module CaddyStorageOSS.
Record t := mk {
  BucketName : string;
  Region : string;
  Endpoint : string;
  AccessKeyID : string;
  AccessKeySecret : string;
  EncryptionKeySet : string
}.
End CaddyStorageOSS.

(** [Validate] the caddy oss storage configuration. *)
Definition Validate (s : CaddyStorageOSS.t) : option error :=
  if String.eqb (CaddyStorageOSS.BucketName s) "" then
    Some (ErrorString "bucket name must be defined")
  else if String.eqb (CaddyStorageOSS.Region s) "" then
    Some (ErrorString "region must be defined")
  else if String.eqb (CaddyStorageOSS.AccessKeyID s) "" then
    Some (ErrorString "access key id must be defined")
  else if String.eqb (CaddyStorageOSS.AccessKeySecret s) "" then
    Some (ErrorString "access key secret must be defined")
  else None.

Section CertMagicStorage.

(** The file system and the keyset library, as [CertMagicStorage] uses
    them: [os.Open], [insecurecleartextkeyset.Read] of a JSON reader on the
    open file, and [aead.New]. *)
Context {W File Handle : Type}.
Variable osOpen : string → Result File.
Variable keysetRead : File → Result Handle.
Variable aeadNew : Handle → Result tink.AEAD.
Variable NewClient : ClientConfig.t → oss.Client W.

(** [CertMagicStorage] returns a cert-magic storage. *)
Definition CertMagicStorage (s : CaddyStorageOSS.t) : Result (Storage W) :=
  let config := Config.mk None (CaddyStorageOSS.BucketName s) (CaddyStorageOSS.Region s)
                  (CaddyStorageOSS.Endpoint s) (CaddyStorageOSS.AccessKeyID s)
                  (CaddyStorageOSS.AccessKeySecret s) in
  let build (config : Config.t) : Result (Storage W) :=
    match NewStorage NewClient context.Background config with
    | (storage, None) => Ok storage
    | (_, Some err) => Err err
    end in
  if (0 <? String.length (CaddyStorageOSS.EncryptionKeySet s))%nat then
    match osOpen (CaddyStorageOSS.EncryptionKeySet s) with
    | Err err => Err err
    | Ok f =>
        match keysetRead f with
        | Err err => Err err
        | Ok kh =>
            match aeadNew kh with
            | Err err => Err err
            | Ok kp =>
                build (Config.mk (Some kp) (Config.BucketName config) (Config.Region config)
                         (Config.Endpoint config) (Config.AccessKeyID config)
                         (Config.AccessKeySecret config))
            end
        end
    end
  else build config.

End CertMagicStorage.

(** *** The Caddyfile dispenser

    [caddyfile.Dispenser], as far as [UnmarshalCaddyfile] uses it: a cursor
    over the tokens of the block, each token with its text and its line.
    [Next] moves to the next token; [NextArg] moves to the next token only
    if it is on the line of the current one and is not an opening brace;
    [Args] with one target loads one argument into it. *)

Module Token.
Record t := mk { Text : string; Line : nat }.
End Token.

Module Dispenser.

Record t := mk { tokens : list Token.t; cursor : Z }.

Definition NewDispenser (tokens : list Token.t) : t := mk tokens (-1).

Definition Next (d : t) : bool * t :=
  if (cursor d <? Z.of_nat (length (tokens d)) - 1)%Z
  then (true, mk (tokens d) (cursor d + 1))
  else (false, d).

Definition Val (d : t) : string :=
  if (cursor d <? 0)%Z || (Z.of_nat (length (tokens d)) <=? cursor d)%Z then ""
  else match tokens d !! Z.to_nat (cursor d) with
       | Some tok => Token.Text tok
       | None => ""
       end.

Definition isNextOnNewLine (t1 t2 : Token.t) : bool :=
  Token.Line t1 <? Token.Line t2.

Definition nextOnSameLine (d : t) : bool * t :=
  if (cursor d <? 0)%Z then (true, mk (tokens d) (cursor d + 1))
  else if (Z.of_nat (length (tokens d)) - 1 <=? cursor d)%Z then (false, d)
  else match tokens d !! Z.to_nat (cursor d), tokens d !! Z.to_nat (cursor d + 1) with
       | Some curr, Some next =>
           if negb (isNextOnNewLine curr next) then (true, mk (tokens d) (cursor d + 1))
           else (false, d)
       | _, _ => (false, d)
       end.

Definition NextArg (d : t) : bool * t :=
  match nextOnSameLine d with
  | (false, d') => (false, d')
  | (true, d') =>
      if String.eqb (Val d') "{" then (false, mk (tokens d') (cursor d' - 1))
      else (true, d')
  end.

(** [d.Args(&value)]: the target keeps its value when no argument is
    loaded. *)
Definition Args (d : t) (value : string) : bool * string * t :=
  match NextArg d with
  | (false, d') => (false, value, d')
  | (true, d') => (true, Val d', d')
  end.

End Dispenser.

(** The [switch key] of [UnmarshalCaddyfile]. *)
Definition setDirective (key value : string) (s : CaddyStorageOSS.t) : CaddyStorageOSS.t :=
  let '(CaddyStorageOSS.mk bucketName region endpoint accessKeyID accessKeySecret
          encryptionKeySet) := s in
  if String.eqb key "bucket-name" then
    CaddyStorageOSS.mk value region endpoint accessKeyID accessKeySecret encryptionKeySet
  else if String.eqb key "region" then
    CaddyStorageOSS.mk bucketName value endpoint accessKeyID accessKeySecret encryptionKeySet
  else if String.eqb key "endpoint" then
    CaddyStorageOSS.mk bucketName region value accessKeyID accessKeySecret encryptionKeySet
  else if String.eqb key "access-key-id" then
    CaddyStorageOSS.mk bucketName region endpoint value accessKeySecret encryptionKeySet
  else if String.eqb key "access-key-secret" then
    CaddyStorageOSS.mk bucketName region endpoint accessKeyID value encryptionKeySet
  else if String.eqb key "encryption-key-set" then
    CaddyStorageOSS.mk bucketName region endpoint accessKeyID accessKeySecret value
  else s.

(** [UnmarshalCaddyfile]: the [for d.Next()] loop runs on fuel, one unit
    per token visited by [Next]; the result is the configuration after the
    loop, the returned error ([nil]) and the dispenser. *)
Fixpoint UnmarshalCaddyfile (fuel : nat) (s : CaddyStorageOSS.t) (d : Dispenser.t)
  : option (CaddyStorageOSS.t * option error * Dispenser.t) :=
  match fuel with
  | O => None
  | S fuel' =>
      match Dispenser.Next d with
      | (false, d1) => Some (s, None, d1)
      | (true, d1) =>
          let key := Dispenser.Val d1 in
          match Dispenser.Args d1 "" with
          | (false, _, d2) => UnmarshalCaddyfile fuel' s d2
          | (true, value, d2) => UnmarshalCaddyfile fuel' (setDirective key value s) d2
          end
      end
  end.

(** The tokens of a storage block whose body has one directive per line,
    a key and a value each:
    [name {] on line 0, [key value] on lines 1 to n, [}] on line n + 1. *)
Fixpoint directiveTokens (line : nat) (directives : list (string * string)) : list Token.t :=
  match directives with
  | [] => [Token.mk "}" (S line)]
  | (key, value) :: rest =>
      Token.mk key (S line) :: Token.mk value (S line) :: directiveTokens (S line) rest
  end.

Definition blockTokens (name : string) (directives : list (string * string)) : list Token.t :=
  Token.mk name 0 :: Token.mk "{" 0 :: directiveTokens 0 directives.

(** No object of [svc'] is new with respect to [svc]. *)
Definition noNewObject (svc svc' : Service) : Prop :=
  ∀ k o, objects svc' !! k = Some o → objects svc !! k = Some o.

(** Every object of the service was written at [t0] or later. *)
Definition freshMarkers (t0 : Time) (svc : Service) : Prop :=
  ∀ k o, objects svc !! k = Some o → (t0 <= Object.LastModified o)%Z.

(** The markers of the callers' keys, where there are any, were written
    at [t0] or later. *)
Definition markersSince (t0 : Time) (bucket : string) (callers : list Caller)
    (svc : Service) : Prop :=
  ∀ i c o, callers !! i = Some c →
           objects svc !! (bucket, callerKey c +:+ ".lock") = Some o →
           (t0 <= Object.LastModified o)%Z.

(** Among the callers no one is about to delete a marker, a caller that
    returned [nil] has its marker on the service, and no two callers of the
    same key have returned [nil]. *)
Definition exclusive (bucket : string) (callers : list Caller) (svc : Service) : Prop :=
  (∀ i c, callers !! i = Some c → callerAt c ≠ AtDelete)
  ∧ (∀ i c, callers !! i = Some c → callerAt c = Returned None →
            is_Some (objects svc !! (bucket, callerKey c +:+ ".lock")))
  ∧ (∀ i j ci cj, callers !! i = Some ci → callers !! j = Some cj →
                  callerKey ci = callerKey cj →
                  callerAt ci = Returned None → callerAt cj = Returned None → i = j).

(** ** Properties *)

(** *** The service *)

Lemma request_live {A} ctx (serve : Service → Result A * Service) svc :
  context.Done ctx (clock svc) = false →
  faults svc = [] →
  request ctx serve svc = serve svc.
Proof. intros Hd Hf. unfold request. by rewrite Hd, Hf. Qed.

Lemma request_done {A} ctx (serve : Service → Result A * Service) svc :
  context.Done ctx (clock svc) = true →
  request ctx serve svc = (Err (Errorf "operation error" (context.Err ctx)), svc).
Proof. intros Hd. unfold request. by rewrite Hd. Qed.

Lemma request_fault {A} ctx (serve : Service → Result A * Service) svc err rest :
  context.Done ctx (clock svc) = false →
  faults svc = Some err :: rest →
  request ctx serve svc = (Err err, setFaults svc rest).
Proof. intros Hd Hf. unfold request. by rewrite Hd, Hf. Qed.

Lemma servePut_overwrite bucket key body svc :
  servePut (PutObjectRequest.mk bucket key body None) svc
  = (Ok tt, setObjects svc (<[(bucket, key) := Object.mk body (clock svc)]> (objects svc))).
Proof. unfold servePut; simpl. by destruct (objects svc !! (bucket, key)). Qed.

Lemma bytesEqb_refl a : bytesEqb a a = true.
Proof.
  induction a as [|x a IH]; simpl; [done|].
  rewrite IH, andb_true_r. by apply Byte.byte_dec_lb.
Qed.

Lemma cleartext_opensWhatItSeals : opensWhatItSeals cleartext.
Proof. intros pt ad ct; simpl. congruence. Qed.

Lemma tagging_opensWhatItSeals : opensWhatItSeals tagging.
Proof.
  intros pt ad ct; simpl. intros [= <-].
  by rewrite take_app_length, drop_app_length, bytesEqb_refl.
Qed.

(** *** Store and Load *)

(** C2. Round trip: on a service that answers, [Store k v] succeeds and a
    following [Load k] returns exactly [v], for every codec that opens what
    it seals under the same associated data; the key is the associated data
    of both calls.  The identity codec [cleartext] is one such codec, a
    codec that changes the payload another. *)
Theorem Store_Load_round_trip (a : tink.AEAD) (bucket : string)
    (ctx : context.Context) (k : string) (v ciphertext : list byte) (svc : Service) :
  opensWhatItSeals a →
  tink.Encrypt a v (bytesOf k) = Ok ciphertext →
  context.Done ctx (clock svc) = false →
  faults svc = [] →
  ∃ svc',
    Store (storageOn bucket a) ctx k v svc = (None, svc')
    ∧ Object.Content <$> objects svc' !! (bucket, k) = Some ciphertext
    ∧ Load (storageOn bucket a) ctx k svc' = (Ok v, svc').
Proof.
  intros Ha Henc Hd Hf.
  exists (setObjects svc (<[(bucket, k) := Object.mk ciphertext (clock svc)]> (objects svc))).
  unfold Store, Load; simpl. rewrite Henc.
  rewrite request_live by done. rewrite servePut_overwrite.
  split; [done|]. split; [by simplify_map_eq|].
  rewrite request_live by done.
  unfold serveGet; simpl. rewrite lookup_insert_eq; simpl.
  by rewrite (Ha _ _ _ Henc).
Qed.

Lemma Store_Load_round_trip_witness :
  (∃ svc', Store (storageOn "b" cleartext) context.Background "k" (bytesOf "data")
             (emptyService 0) = (None, svc')
           ∧ Object.Content <$> objects svc' !! ("b", "k") = Some (bytesOf "data")
           ∧ Load (storageOn "b" cleartext) context.Background "k" svc'
             = (Ok (bytesOf "data"), svc'))
  ∧ (∃ svc', Store (storageOn "b" tagging) context.Background "k" (bytesOf "data")
               (emptyService 0) = (None, svc')
             ∧ Object.Content <$> objects svc' !! ("b", "k") = Some (bytesOf "kdata")
             ∧ Load (storageOn "b" tagging) context.Background "k" svc'
               = (Ok (bytesOf "data"), svc')).
Proof.
  split.
  - apply (Store_Load_round_trip cleartext "b" context.Background "k"
             (bytesOf "data") (bytesOf "data") (emptyService 0));
      [exact cleartext_opensWhatItSeals | reflexivity | reflexivity | reflexivity].
  - apply (Store_Load_round_trip tagging "b" context.Background "k"
             (bytesOf "data") (bytesOf "kdata") (emptyService 0));
      [exact tagging_opensWhatItSeals | reflexivity | reflexivity | reflexivity].
Defined.

(** *** Delete *)

(** C3. Delete is idempotent.  Whatever the client, a "NoSuchKey" answer to
    the delete makes [Delete] return [nil] and every other error is
    returned to the caller (wrapped); on the service, deleting a key that
    holds no object returns [nil] and changes nothing, whether the service
    reports the missing object or not. *)
Theorem Delete_idempotent :
  (∀ W (s : Storage W) ctx key w err w',
      oss.DeleteObject (client s) ctx (DeleteObjectRequest.mk (bucketName s) key) w
      = (Err err, w') →
      (hasErrorCode err "NoSuchKey" = true → Delete s ctx key w = (None, w'))
      ∧ (hasErrorCode err "NoSuchKey" = false →
         Delete s ctx key w = (Some (Errorf ("deleting object " +:+ key) err), w')))
  ∧ (∀ bucket a ctx key svc,
        context.Done ctx (clock svc) = false →
        faults svc = [] →
        objects svc !! (bucket, key) = None →
        Delete (storageOn bucket a) ctx key svc = (None, svc)).
Proof.
  split.
  - intros W s ctx key w err w' Hdel. unfold Delete. rewrite Hdel.
    split; intros ->; reflexivity.
  - intros bucket a ctx key svc Hd Hf Hnone. unfold Delete; simpl.
    rewrite request_live by done. unfold serveDelete; simpl. rewrite Hnone.
    by destruct (strictDelete svc).
Qed.

Lemma Delete_idempotent_witness :
  Delete (storageOn "b" cleartext) context.Background "does/not/exists" (emptyService 0)
  = (None, emptyService 0)
  ∧ Delete (storageOn "b" cleartext) context.Background "k"
      (setFaults (emptyService 0) [Some (ErrorString "connection reset")])
    = (Some (Errorf "deleting object k" (ErrorString "connection reset")), emptyService 0).
Proof.
  split.
  - apply (proj2 Delete_idempotent); reflexivity.
  - apply (proj1 Delete_idempotent Service (storageOn "b" cleartext) context.Background "k"
             (setFaults (emptyService 0) [Some (ErrorString "connection reset")])
             (ErrorString "connection reset") (emptyService 0));
      reflexivity.
Defined.

(** *** Unlock *)

(** C6. [Unlock key] deletes [key + ".lock"] under the background context:
    its outcome does not depend on the caller's context; a successful
    delete and a "NoSuchKey" answer both give [nil], any other error is
    returned; and on the service the marker is gone afterwards even when
    the caller's context is already done, no other object being touched. *)
Theorem Unlock_deletes_marker :
  (∀ W (s : Storage W) ctx key w r w',
      oss.DeleteObject (client s) context.Background
        (DeleteObjectRequest.mk (bucketName s) (key +:+ ".lock")) w = (r, w') →
      Unlock s ctx key w
      = (match r with
         | Ok _ => None
         | Err err => if hasErrorCode err "NoSuchKey" then None
                      else Some (Errorf ("deleting lock " +:+ (key +:+ ".lock")) err)
         end, w'))
  ∧ (∀ bucket a ctx key svc,
        faults svc = [] →
        ∃ svc',
          Unlock (storageOn bucket a) ctx key svc = (None, svc')
          ∧ objects svc' !! (bucket, key +:+ ".lock") = None
          ∧ ∀ k, k ≠ (bucket, key +:+ ".lock") → objects svc' !! k = objects svc !! k).
Proof.
  split.
  - intros W s ctx key w r w' Hdel. unfold Unlock, objLockName. rewrite Hdel.
    destruct r as [[]|err]; [done|]. by destruct (hasErrorCode err "NoSuchKey").
  - intros bucket a ctx key svc Hf. unfold Unlock, objLockName; simpl.
    rewrite request_live by done. unfold serveDelete; simpl.
    destruct (objects svc !! (bucket, key +:+ ".lock")) as [o|] eqn:Hk.
    + eexists; split; [reflexivity|]; simpl. split; [apply lookup_delete_eq|].
      intros k Hne. by rewrite lookup_delete_ne.
    + destruct (strictDelete svc); simpl; by exists svc.
Qed.

Lemma Unlock_deletes_marker_witness :
  let held := setObjects (emptyService 5) {[ ("b", "r.lock") := Object.mk [] 1%Z ]} in
  context.Done (context.WithCancel 2) (clock held) = true
  ∧ ∃ svc',
      Unlock (storageOn "b" cleartext) (context.WithCancel 2) "r" held = (None, svc')
      ∧ objects svc' !! ("b", "r" +:+ ".lock") = None
      ∧ ∀ k, k ≠ ("b", "r" +:+ ".lock") → objects svc' !! k = objects held !! k.
Proof.
  split; [reflexivity|].
  apply (proj2 Unlock_deletes_marker "b" cleartext (context.WithCancel 2) "r"). reflexivity.
Defined.

(** *** Stat *)

(** C8. On the service, [Stat] of a key that holds no object returns
    [fs.ErrNotExist]; of a key that holds one it returns the key, the
    instant of the last write, the length of the stored bytes and
    [IsTerminal = true]; after [Store k v] the stored bytes are the
    ciphertext, so the size is the ciphertext's length. *)
Theorem Stat_projects_head :
  (∀ bucket a ctx key svc,
      context.Done ctx (clock svc) = false →
      faults svc = [] →
      objects svc !! (bucket, key) = None →
      Stat (storageOn bucket a) ctx key svc = (KeyInfo.zero, Some ErrNotExist, svc))
  ∧ (∀ bucket a ctx key svc o,
        context.Done ctx (clock svc) = false →
        faults svc = [] →
        objects svc !! (bucket, key) = Some o →
        Stat (storageOn bucket a) ctx key svc
        = (KeyInfo.mk key (Object.LastModified o)
             (Z.of_nat (length (Object.Content o))) true, None, svc))
  ∧ (∀ bucket a ctx key v ciphertext svc,
        tink.Encrypt a v (bytesOf key) = Ok ciphertext →
        context.Done ctx (clock svc) = false →
        faults svc = [] →
        ∃ svc',
          Store (storageOn bucket a) ctx key v svc = (None, svc')
          ∧ Stat (storageOn bucket a) ctx key svc'
            = (KeyInfo.mk key (clock svc) (Z.of_nat (length ciphertext)) true, None, svc')).
Proof.
  assert (Hpresent : ∀ bucket a ctx key svc o,
             context.Done ctx (clock svc) = false →
             faults svc = [] →
             objects svc !! (bucket, key) = Some o →
             Stat (storageOn bucket a) ctx key svc
             = (KeyInfo.mk key (Object.LastModified o)
                  (Z.of_nat (length (Object.Content o))) true, None, svc)).
  { intros bucket a ctx key svc o Hd Hf Ho. unfold Stat; simpl.
    rewrite request_live by done. unfold serveHead; simpl. by rewrite Ho. }
  split; [|split; [exact Hpresent|]].
  - intros bucket a ctx key svc Hd Hf Hnone. unfold Stat; simpl.
    rewrite request_live by done. unfold serveHead; simpl. by rewrite Hnone.
  - intros bucket a ctx key v ct svc Henc Hd Hf.
    eexists. unfold Store; simpl. rewrite Henc.
    rewrite request_live by done. rewrite servePut_overwrite.
    split; [reflexivity|].
    rewrite (Hpresent _ _ _ _ _ (Object.mk ct (clock svc)));
      [reflexivity|done|done|]. simpl. apply lookup_insert_eq.
Qed.

Lemma Stat_projects_head_witness :
  Stat (storageOn "b" tagging) context.Background "k" (emptyService 7)
  = (KeyInfo.zero, Some ErrNotExist, emptyService 7)
  ∧ ∃ svc',
      Store (storageOn "b" tagging) context.Background "k" (bytesOf "data") (emptyService 7)
      = (None, svc')
      ∧ Stat (storageOn "b" tagging) context.Background "k" svc'
        = (KeyInfo.mk "k" 7%Z (Z.of_nat (length (bytesOf "kdata"))) true, None, svc').
Proof.
  split.
  - apply (proj1 Stat_projects_head); reflexivity.
  - apply (proj2 (proj2 Stat_projects_head) "b" tagging context.Background "k"
             (bytesOf "data") (bytesOf "kdata") (emptyService 7)); reflexivity.
Defined.

(** *** Lock: the loop and its steps *)

Section LockLoop.

Context {W : Type} `{!Runtime W}.
Variables (s : Storage W) (ctx : context.Context) (key : string).

(** One turn of the loop, by the answers of the outside world. *)
Lemma Lock_turn fuel w :
  Lock (S fuel) s ctx key w
  = match oss.PutObject (client s) ctx (lockPutRequest s key) w with
    | (Ok _, w1) => (Some None, w1)
    | (Err err, w1) =>
        if lockAlreadyExists err then
          match oss.HeadObject (client s) ctx (lockHeadRequest s key) w1 with
          | (Err _, w2) => lockWait fuel s ctx key w2
          | (Ok result, w2) =>
              if lockExpired result (Now w2) then
                match oss.DeleteObject (client s) ctx (lockDeleteRequest s key) w2 with
                | (deleted, w3) =>
                    if lockDeleted deleted then Lock fuel s ctx key w3
                    else lockWait fuel s ctx key w3
                end
              else lockWait fuel s ctx key w2
          end
        else (Some (Some (Errorf ("creating lock " +:+ objLockName s key) err)), w1)
    end.
Proof. reflexivity. Qed.

Lemma lockSteps_step n pt w pt' w' :
  (∀ err, pt ≠ Returned err) →
  lockStep s ctx key pt w = (pt', w') →
  lockSteps (S n) s ctx key pt w = lockSteps n s ctx key pt' w'.
Proof.
  intros Hpt Hstep. cbn [lockSteps]. rewrite Hstep.
  destruct pt; try reflexivity. by destruct (Hpt err).
Qed.

Lemma lockSteps_Returned n err w :
  lockSteps n s ctx key (Returned err) w = (Returned err, w).
Proof. by destruct n. Qed.

(** Every result of the loop is reached by the caller stepping alone. *)
Lemma Lock_lockSteps fuel : ∀ w r w',
  Lock fuel s ctx key w = (Some r, w') →
  ∃ n, lockSteps n s ctx key AtPut w = (Returned r, w').
Proof.
  induction fuel as [|fuel IH]; intros w r w' HL; [discriminate|].
  rewrite Lock_turn in HL.
  assert (Hwait : ∀ w2, lockWait fuel s ctx key w2 = (Some r, w') →
            ∃ n, lockSteps n s ctx key AtSelect w2 = (Returned r, w')).
  { intros w2 Hw. unfold lockWait in Hw.
    destruct (SelectAfterOrDone ctx LockPollInterval w2) as [[] w3] eqn:Hsel.
    - destruct (IH _ _ _ Hw) as [n Hn]. exists (S n).
      rewrite (lockSteps_step n AtSelect w2 AtPut w3); [done|done|].
      simpl. by rewrite Hsel.
    - injection Hw as <- <-. exists 1.
      rewrite (lockSteps_step 0 AtSelect w2 (Returned (Some (context.Err ctx))) w3);
        [done|done|]. simpl. by rewrite Hsel. }
  destruct (oss.PutObject (client s) ctx (lockPutRequest s key) w)
    as [[[]|err] w1] eqn:Hput.
  { injection HL as <- <-. exists 1.
    rewrite (lockSteps_step 0 AtPut w (Returned None) w1); [done|done|].
    simpl. by rewrite Hput. }
  destruct (lockAlreadyExists err) eqn:Hae; cycle 1.
  { injection HL as <- <-. exists 1.
    erewrite (lockSteps_step 0 AtPut w); [done|done|].
    simpl. by rewrite Hput, Hae. }
  assert (Hhead : ∀ n, lockSteps n s ctx key AtHead w1 = (Returned r, w') →
            lockSteps (S n) s ctx key AtPut w = (Returned r, w')).
  { intros n Hn. rewrite (lockSteps_step n AtPut w AtHead w1); [done|done|].
    simpl. by rewrite Hput, Hae. }
  destruct (oss.HeadObject (client s) ctx (lockHeadRequest s key) w1)
    as [[result|e] w2] eqn:Hh; cycle 1.
  { destruct (Hwait _ HL) as [n Hn]. exists (S (S n)). apply Hhead.
    rewrite (lockSteps_step n AtHead w1 AtSelect w2); [done|done|].
    simpl. by rewrite Hh. }
  destruct (lockExpired result (Now w2)) eqn:Hexp; cycle 1.
  { destruct (Hwait _ HL) as [n Hn]. exists (S (S n)). apply Hhead.
    rewrite (lockSteps_step n AtHead w1 AtSelect w2); [done|done|].
    simpl. by rewrite Hh, Hexp. }
  destruct (oss.DeleteObject (client s) ctx (lockDeleteRequest s key) w2)
    as [deleted w3] eqn:Hdel.
  assert (Hdelete : ∀ n pt,
            pt = (if lockDeleted deleted then AtPut else AtSelect) →
            lockSteps n s ctx key pt w3 = (Returned r, w') →
            lockSteps (S (S (S n))) s ctx key AtPut w = (Returned r, w')).
  { intros n pt -> Hn. apply Hhead.
    rewrite (lockSteps_step (S n) AtHead w1 AtDelete w2); [|done|];
      [|simpl; by rewrite Hh, Hexp].
    rewrite (lockSteps_step n AtDelete w2
               (if lockDeleted deleted then AtPut else AtSelect) w3); [done|done|].
    simpl. rewrite Hdel. by destruct (lockDeleted deleted). }
  destruct (lockDeleted deleted) eqn:Hld.
  - destruct (IH _ _ _ HL) as [n Hn]. eauto.
  - destruct (Hwait _ HL) as [n Hn]. eauto.
Qed.

(** More fuel does not change the result of a call that returns. *)
Lemma Lock_mono fuel : ∀ fuel' w r w',
  Lock fuel s ctx key w = (Some r, w') →
  fuel ≤ fuel' →
  Lock fuel' s ctx key w = (Some r, w').
Proof.
  induction fuel as [|fuel IH]; intros fuel' w r w' HL Hle; [discriminate|].
  destruct fuel' as [|fuel']; [lia|]. rewrite Lock_turn in *.
  assert (Hwait : ∀ w2, lockWait fuel s ctx key w2 = (Some r, w') →
            lockWait fuel' s ctx key w2 = (Some r, w')).
  { intros w2. unfold lockWait.
    destruct (SelectAfterOrDone ctx LockPollInterval w2) as [[] w3]; [|done].
    intros Hw. apply IH; [done|lia]. }
  destruct (oss.PutObject (client s) ctx (lockPutRequest s key) w)
    as [[[]|err] w1]; [done|].
  destruct (lockAlreadyExists err); [|done].
  destruct (oss.HeadObject (client s) ctx (lockHeadRequest s key) w1)
    as [[result|e] w2]; [|by apply Hwait].
  destruct (lockExpired result (Now w2)); [|by apply Hwait].
  destruct (oss.DeleteObject (client s) ctx (lockDeleteRequest s key) w2)
    as [deleted w3].
  destruct (lockDeleted deleted); [|by apply Hwait].
  apply IH; [done|lia].
Qed.

(** Conversely, a caller that steps alone and returns within [n] steps is
    a call of the loop that returns within [n] turns. *)
Lemma lockSteps_Lock n : ∀ w r w',
  lockSteps n s ctx key AtPut w = (Returned r, w') →
  Lock n s ctx key w = (Some r, w').
Proof.
  induction (lt_wf n) as [n _ IH]. intros w r w' Hs.
  destruct n as [|n1]; [discriminate|]. rewrite Lock_turn.
  assert (Hwait : ∀ m w2, m ≤ n1 →
            lockSteps m s ctx key AtSelect w2 = (Returned r, w') →
            lockWait n1 s ctx key w2 = (Some r, w')).
  { intros m w2 Hm Hsel. destruct m as [|m]; [discriminate|]. unfold lockWait.
    destruct (SelectAfterOrDone ctx LockPollInterval w2) as [[] w3] eqn:Hw.
    - rewrite (lockSteps_step m AtSelect w2 AtPut w3) in Hsel;
        [|done|simpl; by rewrite Hw].
      apply (Lock_mono m); [|lia]. apply IH; [lia|done].
    - rewrite (lockSteps_step m AtSelect w2 (Returned (Some (context.Err ctx))) w3)
        in Hsel; [|done|simpl; by rewrite Hw].
      rewrite lockSteps_Returned in Hsel. by injection Hsel as <- <-. }
  destruct (oss.PutObject (client s) ctx (lockPutRequest s key) w)
    as [[[]|err] w1] eqn:Hput.
  { rewrite (lockSteps_step n1 AtPut w (Returned None) w1) in Hs;
      [|done|simpl; by rewrite Hput].
    rewrite lockSteps_Returned in Hs. by injection Hs as <- <-. }
  destruct (lockAlreadyExists err) eqn:Hae; cycle 1.
  { rewrite (lockSteps_step n1 AtPut w
               (Returned (Some (Errorf ("creating lock " +:+ objLockName s key) err))) w1)
      in Hs; [|done|simpl; by rewrite Hput, Hae].
    rewrite lockSteps_Returned in Hs. by injection Hs as <- <-. }
  rewrite (lockSteps_step n1 AtPut w AtHead w1) in Hs;
    [|done|simpl; by rewrite Hput, Hae].
  destruct n1 as [|n2]; [discriminate|].
  destruct (oss.HeadObject (client s) ctx (lockHeadRequest s key) w1)
    as [[result|e] w2] eqn:Hh; cycle 1.
  { rewrite (lockSteps_step n2 AtHead w1 AtSelect w2) in Hs;
      [|done|simpl; by rewrite Hh].
    apply (Hwait n2); [lia|done]. }
  destruct (lockExpired result (Now w2)) eqn:Hexp; cycle 1.
  { rewrite (lockSteps_step n2 AtHead w1 AtSelect w2) in Hs;
      [|done|simpl; by rewrite Hh, Hexp].
    apply (Hwait n2); [lia|done]. }
  rewrite (lockSteps_step n2 AtHead w1 AtDelete w2) in Hs;
    [|done|simpl; by rewrite Hh, Hexp].
  destruct n2 as [|n3]; [discriminate|].
  destruct (oss.DeleteObject (client s) ctx (lockDeleteRequest s key) w2)
    as [deleted w3] eqn:Hdel.
  destruct (lockDeleted deleted) eqn:Hld.
  - rewrite (lockSteps_step n3 AtDelete w2 AtPut w3) in Hs;
      [|done|simpl; by rewrite Hdel, Hld].
    apply (Lock_mono n3); [|lia]. apply IH; [lia|done].
  - rewrite (lockSteps_step n3 AtDelete w2 AtSelect w3) in Hs;
      [|done|simpl; by rewrite Hdel, Hld].
    apply (Hwait n3); [lia|done].
Qed.

End LockLoop.

(** *** What the requests of the lock loop do to the service *)

Lemma noNewObject_refl svc svc' : objects svc' = objects svc → noNewObject svc svc'.
Proof. intros Heq k o. by rewrite Heq. Qed.

Lemma noNewObject_trans svc1 svc2 svc3 :
  noNewObject svc1 svc2 → noNewObject svc2 svc3 → noNewObject svc1 svc3.
Proof. intros H12 H23 k o Hk. eauto. Qed.

Lemma put_answer ctx req svc r svc' :
  oss.PutObject serviceClient ctx req svc = (r, svc') →
  clock svc' = clock svc
  ∧ match r with
    | Ok _ =>
        objects svc'
        = <[(PutObjectRequest.Bucket req, PutObjectRequest.Key req)
            := Object.mk (PutObjectRequest.Body req) (clock svc)]> (objects svc)
    | Err _ => objects svc' = objects svc
    end.
Proof.
  simpl. unfold request.
  destruct (context.Done ctx (clock svc)); [by intros [= <- <-]|].
  assert (Hserve : ∀ svc0, clock svc0 = clock svc → objects svc0 = objects svc →
            servePut req svc0 = (r, svc') →
            clock svc' = clock svc
            ∧ match r with
              | Ok _ =>
                  objects svc'
                  = <[(PutObjectRequest.Bucket req, PutObjectRequest.Key req)
                      := Object.mk (PutObjectRequest.Body req) (clock svc)]> (objects svc)
              | Err _ => objects svc' = objects svc
              end).
  { intros svc0 Hc Ho. unfold servePut. rewrite Ho, Hc.
    destruct (objects svc !! _); [destruct (match PutObjectRequest.ForbidOverwrite req with
                                            | Some v => String.eqb v "true"
                                            | None => false end)|];
      intros [= <- <-]; simpl; by rewrite ?Hc, ?Ho. }
  destruct (faults svc) as [|[err|] rest]; [by apply Hserve| |by apply Hserve].
  by intros [= <- <-].
Qed.

Lemma head_answer ctx req svc r svc' :
  oss.HeadObject serviceClient ctx req svc = (r, svc') →
  clock svc' = clock svc ∧ objects svc' = objects svc.
Proof.
  simpl. unfold request, serveHead.
  destruct (context.Done ctx (clock svc)); [by intros [= <- <-]|].
  destruct (faults svc) as [|[err|] rest]; simpl;
    try destruct (objects svc !! _); by intros [= <- <-].
Qed.

Lemma delete_answer ctx req svc r svc' :
  oss.DeleteObject serviceClient ctx req svc = (r, svc') →
  clock svc' = clock svc ∧ noNewObject svc svc'.
Proof.
  simpl. unfold request, serveDelete.
  destruct (context.Done ctx (clock svc));
    [intros [= <- <-]; split; [done|by apply noNewObject_refl]|].
  destruct (faults svc) as [|[err|] rest]; simpl;
    try destruct (objects svc !! _) eqn:Hk; try destruct (strictDelete svc);
    intros [= <- <-]; (split; [done|]); intros k o; simpl; try done;
    intros Hdel; by apply lookup_delete_Some in Hdel as [_ ?].
Qed.

Lemma select_answer ctx d svc fired svc' :
  SelectAfterOrDone ctx d svc = (fired, svc') →
  objects svc' = objects svc ∧ faults svc' = faults svc.
Proof.
  simpl. unfold serviceSelect.
  destruct ctx as [|t|t]; try destruct (t <? clock svc + d)%Z; by intros [= <- <-].
Qed.

(** What a returned [Lock] leaves on the service: the marker with an empty
    body when it returns [nil], no object it created when it returns an
    error. *)
Lemma Lock_outcome bucket a ctx key fuel : ∀ svc r svc',
  Lock fuel (storageOn bucket a) ctx key svc = (Some r, svc') →
  match r with
  | None => Object.Content <$> objects svc' !! (bucket, key +:+ ".lock") = Some []
  | Some _ => noNewObject svc svc'
  end.
Proof.
  induction fuel as [|fuel IH]; intros svc r svc' HL; [discriminate|].
  rewrite Lock_turn in HL.
  assert (Hnext : ∀ svc2, noNewObject svc svc2 →
            Lock fuel (storageOn bucket a) ctx key svc2 = (Some r, svc') →
            match r with
            | None => Object.Content <$> objects svc' !! (bucket, key +:+ ".lock") = Some []
            | Some _ => noNewObject svc svc'
            end).
  { intros svc2 H2 HL2. specialize (IH _ _ _ HL2). destruct r; [|done].
    by eapply noNewObject_trans. }
  assert (Hwait : ∀ svc2, noNewObject svc svc2 →
            lockWait fuel (storageOn bucket a) ctx key svc2 = (Some r, svc') →
            match r with
            | None => Object.Content <$> objects svc' !! (bucket, key +:+ ".lock") = Some []
            | Some _ => noNewObject svc svc'
            end).
  { intros svc2 H2 Hw. unfold lockWait in Hw.
    destruct (SelectAfterOrDone ctx LockPollInterval svc2) as [[] svc3] eqn:Hsel;
      destruct (select_answer _ _ _ _ _ Hsel) as [Ho _].
    - apply (Hnext svc3); [|done]. intros k o. rewrite Ho. apply H2.
    - injection Hw as <- <-. intros k o. rewrite Ho. apply H2. }
  destruct (oss.PutObject _ ctx _ svc) as [[[]|err] svc1] eqn:Hput;
    destruct (put_answer _ _ _ _ _ Hput) as [_ Ho1]; simpl in Ho1.
  { injection HL as <- <-. rewrite Ho1. by rewrite lookup_insert_eq. }
  destruct (lockAlreadyExists err); cycle 1.
  { injection HL as <- <-. by apply noNewObject_refl. }
  destruct (oss.HeadObject _ ctx _ svc1) as [[result|e] svc2] eqn:Hh;
    destruct (head_answer _ _ _ _ _ Hh) as [_ Ho2];
    assert (H2 : noNewObject svc svc2) by (apply noNewObject_refl; congruence);
    [|by apply (Hwait svc2)].
  destruct (lockExpired result (Now svc2)); [|by apply (Hwait svc2)].
  destruct (oss.DeleteObject _ ctx _ svc2) as [deleted svc3] eqn:Hdel.
  destruct (delete_answer _ _ _ _ _ Hdel) as [_ H3].
  assert (noNewObject svc svc3) by (by eapply noNewObject_trans).
  destruct (lockDeleted deleted); [by apply (Hnext svc3) | by apply (Hwait svc3)].
Qed.

(** *** Lock markers and the codec *)

(** C10. Lock markers bypass the codec: the loop is the same whatever codec
    the storage holds; the put it issues carries the empty body, to
    [key + ".lock"], forbidding overwrite; and on the service, when [Lock]
    returns [nil] the object at [key + ".lock"] holds the empty byte
    string, whatever the codec. *)
Theorem Lock_marker_bypasses_codec :
  (∀ W (RT : Runtime W) (c : oss.Client W) bucket a a' fuel ctx key w,
      Lock fuel (mkStorage c bucket a) ctx key w
      = Lock fuel (mkStorage c bucket a') ctx key w)
  ∧ (∀ W (s : Storage W) key,
        lockPutRequest s key
        = PutObjectRequest.mk (bucketName s) (key +:+ ".lock") [] (Some "true"))
  ∧ (∀ bucket a fuel ctx key svc svc',
        Lock fuel (storageOn bucket a) ctx key svc = (Some None, svc') →
        Object.Content <$> objects svc' !! (bucket, key +:+ ".lock") = Some []).
Proof.
  split; [|split].
  - intros W RT c bucket a a' fuel ctx key.
    induction fuel as [|fuel IH]; intros w; [done|].
    rewrite !Lock_turn. unfold lockWait. simpl.
    destruct (oss.PutObject c ctx _ w) as [[[]|err] w1]; [done|].
    destruct (lockAlreadyExists err); [|done].
    destruct (oss.HeadObject c ctx _ w1) as [[result|e] w2].
    + destruct (lockExpired result (Now w2)).
      * destruct (oss.DeleteObject c ctx _ w2) as [deleted w3].
        destruct (lockDeleted deleted); [apply IH|].
        destruct (SelectAfterOrDone ctx LockPollInterval w3) as [[] w4]; [apply IH|done].
      * destruct (SelectAfterOrDone ctx LockPollInterval w2) as [[] w4]; [apply IH|done].
    + destruct (SelectAfterOrDone ctx LockPollInterval w2) as [[] w4]; [apply IH|done].
  - done.
  - intros bucket a fuel ctx key svc svc' HL.
    exact (Lock_outcome bucket a ctx key fuel svc None svc' HL).
Qed.

Lemma Lock_marker_bypasses_codec_witness :
  Lock 1 (storageOn "b" tagging) context.Background "r" (emptyService 3)
  = (Some None, setObjects (emptyService 3) {[ ("b", "r.lock") := Object.mk [] 3%Z ]})
  ∧ Object.Content <$>
      objects (setObjects (emptyService 3) {[ ("b", "r.lock") := Object.mk [] 3%Z ]})
        !! ("b", "r" +:+ ".lock") = Some [].
Proof.
  split; [reflexivity|].
  apply (proj2 (proj2 Lock_marker_bypasses_codec) "b" tagging 1 context.Background "r"
           (emptyService 3)).
  reflexivity.
Defined.

(** *** Cancellation *)

Lemma LockPollInterval_pos : (0 < LockPollInterval)%Z.
Proof. reflexivity. Qed.

Ltac durations := unfold LockPollInterval, LockExpiration, Minute, Second in *; lia.

Section Cancellation.

Variables (report : Time → Time) (bucket : string) (a : tink.AEAD) (key : string).




End Cancellation.


(** *** The probe and the reclaim inside the loop *)

(** C4, as the code has it.  When the conditional put is answered "already
    exists" and the probe fails, with "NoSuchKey" or any other error, the
    turn goes to the [select]: the put is retried after [LockPollInterval],
    or the call returns [ctx.Err()] when the context is done first.  On the
    service, under the background context, the retry runs with the clock
    advanced by [LockPollInterval]. *)
Theorem Lock_probe_error_polls :
  (∀ W (RT : Runtime W) (s : Storage W) ctx key fuel w err w1 e w2,
      oss.PutObject (client s) ctx (lockPutRequest s key) w = (Err err, w1) →
      lockAlreadyExists err = true →
      oss.HeadObject (client s) ctx (lockHeadRequest s key) w1 = (Err e, w2) →
      Lock (S fuel) s ctx key w
      = match SelectAfterOrDone ctx LockPollInterval w2 with
        | (true, w3) => Lock fuel s ctx key w3
        | (false, w3) => (Some (Some (context.Err ctx)), w3)
        end)
  ∧ (∀ bucket a key fuel svc err svc1 e svc2,
        oss.PutObject serviceClient context.Background
          (lockPutRequest (storageOn bucket a) key) svc = (Err err, svc1) →
        lockAlreadyExists err = true →
        oss.HeadObject serviceClient context.Background
          (lockHeadRequest (storageOn bucket a) key) svc1 = (Err e, svc2) →
        Lock (S fuel) (storageOn bucket a) context.Background key svc
        = Lock fuel (storageOn bucket a) context.Background key
            (setClock svc2 (clock svc2 + LockPollInterval))).
Proof.
  split.
  - intros W RT s ctx key fuel w err w1 e w2 Hput Hae Hh.
    rewrite Lock_turn, Hput, Hae, Hh. reflexivity.
  - intros bucket a key fuel svc err svc1 e svc2 Hput Hae Hh.
    rewrite Lock_turn. simpl client. rewrite Hput, Hae, Hh. reflexivity.
Qed.

Lemma Lock_probe_error_polls_witness :
  let s := storageOn "b" cleartext in
  let svc := setFaults (emptyService 10) [Some fileAlreadyExists; Some noSuchKey] in
  let svc1 := setFaults (emptyService 10) [Some noSuchKey] in
  oss.PutObject serviceClient context.Background (lockPutRequest s "r") svc
  = (Err fileAlreadyExists, svc1)
  ∧ lockAlreadyExists fileAlreadyExists = true
  ∧ oss.HeadObject serviceClient context.Background (lockHeadRequest s "r") svc1
    = (Err noSuchKey, emptyService 10)
  ∧ Lock 2 s context.Background "r" svc
    = Lock 1 s context.Background "r"
        (setClock (emptyService 10) (clock (emptyService 10) + LockPollInterval)).
Proof.
  split; [reflexivity|]. split; [reflexivity|]. split; [reflexivity|].
  apply (proj2 Lock_probe_error_polls "b" cleartext "r" 1
           (setFaults (emptyService 10) [Some fileAlreadyExists; Some noSuchKey])
           fileAlreadyExists (setFaults (emptyService 10) [Some noSuchKey])
           noSuchKey (emptyService 10)); reflexivity.
Defined.

(** C4, as stated, fails: the retry after a vanished marker is not
    immediate.  A holder releases the marker between the put and the probe
    of a waiting caller: the probe is answered "NoSuchKey", the caller goes
    to the [select], and reaches the put again only with the clock advanced
    by [LockPollInterval].  With the two answers injected, [Lock] returns
    with the clock at 10 + [LockPollInterval], whereas the retry issued
    right after the probe would return with the clock at 10. *)
Lemma Lock_probe_NotFound_not_immediate :
  let s := storageOn "b" cleartext in
  let held := setObjects (emptyService 10) {[ ("b", "r.lock") := Object.mk [] 9%Z ]} in
  let svc1 := (lockStep s context.Background "r" AtPut held).2 in
  let svc2 := (Unlock s context.Background "r" svc1).2 in
  let answered := setFaults (emptyService 10) [Some fileAlreadyExists; Some noSuchKey] in
  ((lockStep s context.Background "r" AtPut held).1 = AtHead
   ∧ oss.HeadObject (client s) context.Background (lockHeadRequest s "r") svc2
     = (Err noSuchKey, svc2)
   ∧ lockStep s context.Background "r" AtHead svc2 = (AtSelect, svc2)
   ∧ lockStep s context.Background "r" AtSelect svc2
     = (AtPut, setClock svc2 (clock svc2 + LockPollInterval)))
  ∧ (clock (Lock 2 s context.Background "r" answered).2 = (10 + LockPollInterval)%Z
     ∧ clock (Lock 1 s context.Background "r" (emptyService 10)).2 = 10%Z
     ∧ Lock 2 s context.Background "r" answered
       ≠ Lock 1 s context.Background "r" (emptyService 10)).
Proof. by vm_compute. Qed.

(** C5, as the code has it.  An error of the conditional put that is not
    "already exists" ends the call at once with that error, wrapped.  After
    an "already exists": a failed probe, whatever the error, sends the turn
    to the [select]; a reclaim of an expired marker that succeeds or is
    answered "NoSuchKey" retries the put at once, and a reclaim that fails
    with any other error sends the turn to the [select].  The [select]
    returns [ctx.Err()] or retries: the error of the probe or of the
    reclaim is never returned. *)
Theorem Lock_error_handling W (RT : Runtime W) (s : Storage W) ctx key fuel w err w1 :
  oss.PutObject (client s) ctx (lockPutRequest s key) w = (Err err, w1) →
  (lockAlreadyExists err = false →
   Lock (S fuel) s ctx key w
   = (Some (Some (Errorf ("creating lock " +:+ (key +:+ ".lock")) err)), w1))
  ∧ (lockAlreadyExists err = true →
     (∀ e w2,
         oss.HeadObject (client s) ctx (lockHeadRequest s key) w1 = (Err e, w2) →
         Lock (S fuel) s ctx key w = lockWait fuel s ctx key w2)
     ∧ (∀ result w2 deleted w3,
           oss.HeadObject (client s) ctx (lockHeadRequest s key) w1 = (Ok result, w2) →
           lockExpired result (Now w2) = true →
           oss.DeleteObject (client s) ctx (lockDeleteRequest s key) w2 = (deleted, w3) →
           Lock (S fuel) s ctx key w
           = match deleted with
             | Ok _ => Lock fuel s ctx key w3
             | Err e => if hasErrorCode e "NoSuchKey" then Lock fuel s ctx key w3
                        else lockWait fuel s ctx key w3
             end)
     ∧ (∀ result w2,
           oss.HeadObject (client s) ctx (lockHeadRequest s key) w1 = (Ok result, w2) →
           lockExpired result (Now w2) = false →
           Lock (S fuel) s ctx key w = lockWait fuel s ctx key w2)).
Proof.
  intros Hput. rewrite Lock_turn, Hput. split; intros ->; [done|].
  split; [|split].
  - intros e w2 ->. done.
  - intros result w2 deleted w3 -> -> ->. by destruct deleted as [[]|e].
  - intros result w2 -> ->. done.
Qed.

Lemma Lock_error_handling_witness :
  let s := storageOn "b" cleartext in
  let svc := setFaults (emptyService 10) [Some (ErrorString "access denied")] in
  oss.PutObject (client s) context.Background (lockPutRequest s "r") svc
  = (Err (ErrorString "access denied"), emptyService 10)
  ∧ Lock 1 s context.Background "r" svc
    = (Some (Some (Errorf "creating lock r.lock" (ErrorString "access denied"))),
       emptyService 10).
Proof.
  split; [reflexivity|].
  apply (proj1 (Lock_error_handling Service serviceRuntime (storageOn "b" cleartext)
                  context.Background "r" 0
                  (setFaults (emptyService 10) [Some (ErrorString "access denied")])
                  (ErrorString "access denied") (emptyService 10) eq_refl)).
  reflexivity.
Defined.

(** C5, as stated, fails: an error of the probe or of the reclaim other
    than "NoSuchKey" is not returned.  The marker is expired; in the first
    run the probe fails with a transport error, in the second the delete of
    the expired marker is refused: both calls wait, retry and return [nil],
    holding the lock. *)
Lemma Lock_probe_and_reclaim_errors_not_fatal :
  let s := storageOn "b" cleartext in
  let expired := setObjects (emptyService (2 * Minute))
                   {[ ("b", "r.lock") := Object.mk [] 0%Z ]} in
  let probeFails := setFaults expired [None; Some (ErrorString "i/o timeout")] in
  let reclaimFails := setFaults expired [None; None; Some (ErrorString "access denied")] in
  (oss.HeadObject (client s) context.Background (lockHeadRequest s "r")
     (lockStep s context.Background "r" AtPut probeFails).2).1
  = Err (ErrorString "i/o timeout")
  ∧ (Lock 3 s context.Background "r" probeFails).1 = Some None
  ∧ (lockSteps 3 s context.Background "r" AtPut reclaimFails).1 = AtSelect
  ∧ (Lock 3 s context.Background "r" reclaimFails).1 = Some None.
Proof. by vm_compute. Qed.

(** *** Several callers *)

(** The conditional put creates the marker at most once: on the service it
    succeeds only when no object is at the key, and while the object stays
    a further conditional put is answered "already exists". *)
Lemma conditional_put_creates_once bucket a ctx key svc svc' :
  oss.PutObject serviceClient ctx (lockPutRequest (storageOn bucket a) key) svc
  = (Ok tt, svc') →
  objects svc !! (bucket, key +:+ ".lock") = None
  ∧ ∀ ctx',
      faults svc' = [] →
      context.Done ctx' (clock svc') = false →
      oss.PutObject serviceClient ctx' (lockPutRequest (storageOn bucket a) key) svc'
      = (Err fileAlreadyExists, svc').
Proof.
  simpl. unfold request.
  destruct (context.Done ctx (clock svc)); [done|].
  assert (Hserve : ∀ svc0, objects svc0 = objects svc →
            servePut (lockPutRequest (storageOn bucket a) key) svc0 = (Ok tt, svc') →
            objects svc !! (bucket, key +:+ ".lock") = None
            ∧ is_Some (objects svc' !! (bucket, key +:+ ".lock"))).
  { intros svc0 Ho. unfold servePut; simpl; unfold objLockName. rewrite Ho.
    destruct (objects svc !! (bucket, key +:+ ".lock")); [done|].
    intros [= <-]. split; [done|]. simpl. rewrite lookup_insert_eq. by eexists. }
  intros Hput.
  assert (Hfirst : objects svc !! (bucket, key +:+ ".lock") = None
                   ∧ is_Some (objects svc' !! (bucket, key +:+ ".lock"))).
  { destruct (faults svc) as [|[err|] rest]; [by apply (Hserve svc)|done|].
    by apply (Hserve (setFaults svc rest)). }
  destruct Hfirst as [Hnone [o Ho]]. split; [done|].
  intros ctx' Hf Hd. rewrite Hd, Hf. unfold servePut; simpl; unfold objLockName.
  by rewrite Ho.
Qed.

(** C1. Two callers of [Lock "r"] over a marker left by a holder that never
    released it and whose lease has run out.  Both callers are answered
    "already exists" and probe the expired marker; the first deletes it,
    creates its own marker and returns [nil]; the second, still acting on
    its earlier probe, deletes the marker of the first, creates its own and
    returns [nil] as well.  Both calls have returned [nil], no [Unlock] was
    called and the clock has not moved: the marker the second caller
    deleted was not expired. *)
Theorem Lock_expired_reclaim_race :
  let s := storageOn "b" cleartext in
  let expired := setObjects (emptyService (2 * Minute))
                   {[ ("b", "r.lock") := Object.mk [] 0%Z ]} in
  let first := mkCaller context.Background "r" AtPut in
  let second := mkCaller context.Background "r" AtPut in
  let mid := runSchedule s [0; 0; 1; 1; 0; 0] [first; second] expired in
  let final := runSchedule s [1; 1] mid.1 mid.2 in
  callerAt <$> mid.1 = [Returned None; AtDelete]
  ∧ objects mid.2 !! ("b", "r.lock") = Some (Object.mk [] (2 * Minute))
  ∧ lockExpired (HeadObjectResult.mk (Some (2 * Minute)%Z) 0) (Now mid.2) = false
  ∧ callerAt <$> final.1 = [Returned None; Returned None]
  ∧ clock final.2 = clock expired
  ∧ runSchedule s [0; 0; 1; 1; 0; 0; 1; 1] [first; second] expired = final.
Proof. by vm_compute. Qed.

(** *** List *)

Lemma listedKeys_app l1 l2 : listedKeys (l1 ++ l2) = listedKeys l1 ++ listedKeys l2.
Proof. unfold listedKeys, entryContents. by rewrite omap_app, fmap_app. Qed.

Lemma ListPages_exhausted {W} fuel (s : Storage W) ctx p names w :
  oss.HasNext p = false →
  ListPages fuel s ctx p names w = (Some (Ok names), w).
Proof. intros Hp. destruct fuel; simpl; by rewrite Hp. Qed.

(** Paging on the service: from any page on, the loop appends the keys of
    all remaining entries, given one unit of fuel per remaining entry. *)
Lemma ListPages_service bucket a ctx req svc :
  context.Done ctx (clock svc) = false →
  faults svc = [] →
  0 < maxKeys svc →
  ∀ fuel tok fp tr names,
    fp || tr = true →
    length (listing svc (ListObjectsV2Request.Bucket req)
              (ListObjectsV2Request.Prefix req) (ListObjectsV2Request.Delimiter req))
    - default 0 tok < fuel →
    ListPages fuel (storageOn bucket a) ctx (oss.mkPaginator req tok fp tr) names svc
    = (Some (Ok (names ++ listedKeys
                   (drop (default 0 tok)
                      (listing svc (ListObjectsV2Request.Bucket req)
                         (ListObjectsV2Request.Prefix req)
                         (ListObjectsV2Request.Delimiter req))))), svc).
Proof.
  intros Hd Hf Hmax.
  set (all := listing svc _ _ _).
  induction fuel as [|fuel IH]; intros tok fp tr names Hnext Hfuel; [lia|].
  cbn [ListPages]. unfold oss.HasNext at 1. cbn [oss.firstPage oss.isTruncated].
  rewrite Hnext. unfold oss.NextPage. cbn [oss.request oss.continueToken client storageOn].
  cbn [oss.ListObjectsV2 serviceClient]. rewrite request_live by done.
  unfold serveList.
  cbn [ListObjectsV2Request.Bucket ListObjectsV2Request.Prefix
       ListObjectsV2Request.Delimiter ListObjectsV2Request.ContinuationToken].
  fold all. set (start := default 0 tok) in *.
  cbn [ListObjectsV2Result.Contents ListObjectsV2Result.IsTruncated
       ListObjectsV2Result.NextContinuationToken].
  fold (listedKeys (take (maxKeys svc) (drop start all))).
  case_bool_decide as Htr.
  - rewrite IH; [|done|simpl; lia]. simpl.
    rewrite <- (assoc_L (++)), <- listedKeys_app.
    by rewrite <- drop_drop, take_drop.
  - rewrite ListPages_exhausted by done.
    rewrite take_ge; [done|]. rewrite length_drop. lia.
Qed.

(** On a service that answers, [List] returns the keys of the objects of
    the whole listing, in the order of the listing. *)
Lemma List_service bucket a ctx prefix (recursive : bool) svc fuel :
  context.Done ctx (clock svc) = false →
  faults svc = [] →
  0 < maxKeys svc →
  length (listing svc bucket prefix (if recursive then None else Some "/")) < fuel →
  List fuel (storageOn bucket a) ctx prefix recursive svc
  = (Some (Ok (listedKeys (listing svc bucket prefix
                             (if recursive then None else Some "/")))), svc).
Proof.
  intros Hd Hf Hmax Hfuel. unfold List, oss.NewListObjectsV2Paginator.
  cbn [ListObjectsV2Request.ContinuationToken bucketName storageOn].
  rewrite (ListPages_service bucket a ctx _ svc Hd Hf Hmax); simpl.
  - by destruct recursive.
  - done.
  - destruct recursive; simpl in *; lia.
Qed.

Lemma bucketObjects_elem svc bucket k o :
  (k, o) ∈ bucketObjects svc bucket ↔ objects svc !! (bucket, k) = Some o.
Proof.
  unfold bucketObjects. rewrite merge_sort_Permutation, list_elem_of_omap. split.
  - intros [[[b k'] o'] [Hin Hsome]]. simpl in Hsome.
    destruct (String.eqb b bucket) eqn:Hb; [|done].
    apply String.eqb_eq in Hb as ->. injection Hsome as -> ->.
    by apply elem_of_map_to_list.
  - intros Hk. exists ((bucket, k), o). split; [by apply elem_of_map_to_list|].
    simpl. by rewrite String.eqb_refl.
Qed.

Lemma existsb_sameCommonPrefix_object props seen :
  existsb (sameCommonPrefix (EObject props)) seen = false.
Proof. induction seen as [|e seen IH]; simpl; [done|]. exact IH. Qed.

Lemma entryContents_dedupPrefixes l : ∀ seen,
  entryContents (dedupPrefixes seen l) = entryContents l.
Proof.
  induction l as [|e l IH]; intros seen; [done|]. simpl.
  destruct e as [props|p].
  - rewrite existsb_sameCommonPrefix_object. unfold entryContents in *. simpl.
    by rewrite IH.
  - destruct (existsb _ seen); unfold entryContents in *; simpl; by rewrite IH.
Qed.

(** The keys [List] is given by the service: the keys of the bucket that
    start with the prefix and are not rolled up into a common prefix. *)
Lemma listedKeys_listing svc bucket prefix delimiter k :
  k ∈ listedKeys (listing svc bucket prefix delimiter)
  ↔ is_Some (objects svc !! (bucket, k))
    ∧ String.prefix prefix k = true
    ∧ rollup prefix delimiter k = None.
Proof.
  unfold listedKeys, listing. rewrite entryContents_dedupPrefixes.
  unfold entryContents. rewrite list_elem_of_fmap. split.
  - intros [props [-> Hin]].
    apply list_elem_of_omap in Hin as [e [He Hprops]].
    apply list_elem_of_fmap in He as [[k o] [-> Hkv]].
    apply list_elem_of_filter in Hkv as [Hpre Hkv]. simpl in Hpre.
    apply bucketObjects_elem in Hkv.
    unfold entryOf in Hprops. simpl in Hprops.
    destruct (rollup prefix delimiter k) eqn:Hroll; [done|].
    injection Hprops as <-. simpl.
    split; [by eexists|]. split; [by apply Is_true_true|done].
  - intros [[o Ho] [Hpre Hroll]].
    exists (ObjectProperties.mk k (Z.of_nat (length (Object.Content o)))
              (Object.LastModified o)).
    split; [done|]. apply list_elem_of_omap.
    exists (entryOf prefix delimiter (k, o)). split.
    + apply list_elem_of_fmap. exists (k, o). split; [done|].
      apply list_elem_of_filter. split; [by apply Is_true_true|].
      by apply bucketObjects_elem.
    + unfold entryOf; simpl. by rewrite Hroll.
Qed.

Lemma rollup_slash prefix (recursive : bool) k :
  rollup prefix (if recursive then None else Some "/") k = None
  ↔ (recursive = false → String.index (String.length prefix) "/" k = None).
Proof.
  destruct recursive; simpl; [by split|].
  destruct (String.index (String.length prefix) "/" k); split; try done.
  intros H. by specialize (H eq_refl).
Qed.

(** X21. What [List] returns on the service.  On a service that answers,
    [List] pages through the listing until it is exhausted and returns, in
    the order of the listing, the keys the pages report as objects: with
    [recursive = true] every key of the bucket that starts with the prefix;
    with [recursive = false] those among them with no "/" at or after the
    end of the prefix, the others being rolled up into common prefixes,
    which [List] does not read.  After
    [Store "certs/example.com/cert.pem"], the key is listed under the
    prefix "certs/example.com/" and by the recursive listing of
    "certs/example.com". *)
Theorem List_returns_listed_objects :
  (∀ bucket a ctx prefix (recursive : bool) svc fuel,
      context.Done ctx (clock svc) = false →
      faults svc = [] →
      0 < maxKeys svc →
      length (listing svc bucket prefix (if recursive then None else Some "/")) < fuel →
      ∃ names,
        List fuel (storageOn bucket a) ctx prefix recursive svc = (Some (Ok names), svc)
        ∧ names = listedKeys (listing svc bucket prefix
                                (if recursive then None else Some "/"))
        ∧ ∀ k, k ∈ names
               ↔ is_Some (objects svc !! (bucket, k))
                 ∧ String.prefix prefix k = true
                 ∧ (recursive = false →
                    String.index (String.length prefix) "/" k = None))
  ∧ (let s := storageOn "b" cleartext in
     let stored := (Store s context.Background "certs/example.com/cert.pem"
                      (bytesOf "PEM-DATA") (emptyService 0)).2 in
     List 2 s context.Background "certs/example.com/" false stored
     = (Some (Ok ["certs/example.com/cert.pem"]), stored)
     ∧ List 2 s context.Background "certs/example.com" true stored
       = (Some (Ok ["certs/example.com/cert.pem"]), stored)).
Proof.
  split; [|by vm_compute].
  intros bucket a ctx prefix recursive svc fuel Hd Hf Hmax Hfuel.
  eexists. split; [by apply List_service|]. split; [done|].
  intros k. rewrite listedKeys_listing. by rewrite rollup_slash.
Qed.

Lemma List_returns_listed_objects_witness :
  let s := storageOn "b" cleartext in
  let w1 := (Store s context.Background "certs/b.org/key.pem" [] (emptyService 0)).2 in
  let w2 := (Store s context.Background "certs/a.pem" [] w1).2 in
  let w3 := (Store s context.Background "certs/c.pem" [] w2).2 in
  let svc := {| objects := objects w3; clock := 5; faults := [];
                strictDelete := true; maxKeys := 1 |} in
  ∃ names,
    List 4 s context.Background "certs/" false svc = (Some (Ok names), svc)
    ∧ names = ["certs/a.pem"; "certs/c.pem"]
    ∧ ∀ k, k ∈ names
           ↔ is_Some (objects svc !! ("b", k))
             ∧ String.prefix "certs/" k = true
             ∧ (false = false → String.index (String.length "certs/") "/" k = None).
Proof.
  cbv zeta.
  destruct (proj1 List_returns_listed_objects "b" cleartext context.Background
              "certs/" false
              {| objects := objects
                   (Store (storageOn "b" cleartext) context.Background "certs/c.pem" []
                      (Store (storageOn "b" cleartext) context.Background "certs/a.pem" []
                         (Store (storageOn "b" cleartext) context.Background
                            "certs/b.org/key.pem" [] (emptyService 0)).2).2).2;
                 clock := 5; faults := []; strictDelete := true; maxKeys := 1 |} 4)
    as [names [HL [Hnames Hk]]]; [reflexivity|reflexivity|simpl; lia|by vm_compute|].
  exists names. split; [exact HL|]. split; [|exact Hk].
  rewrite Hnames. by vm_compute.
Defined.

(** C7. [List] does not list a directory given by its name.  After
    [Store "certs/example.com/cert.pem"] the object exists, and the
    non-recursive [List "certs/example.com"] returns no key where the
    listing of the directory holds the key: the request carries the prefix
    as given, with no "/" added, and the delimiter "/"; the key has a "/"
    after the prefix, so the service rolls it up into the common prefix
    "certs/example.com/" and reports no object, and [List] reads
    [Contents] only.  With the sibling "certs/example.comX" in the bucket
    the same call returns the sibling and none of the keys of the
    directory. *)
Theorem List_example_returns_nothing :
  let s := storageOn "b" cleartext in
  let stored := (Store s context.Background "certs/example.com/cert.pem"
                   (bytesOf "PEM-DATA") (emptyService 0)).2 in
  let sibling := (Store s context.Background "certs/example.comX"
                    (bytesOf "OTHER") stored).2 in
  (Exists s context.Background "certs/example.com/cert.pem" stored).1 = true
  ∧ listing stored "b" "certs/example.com" (Some "/") = [ECommonPrefix "certs/example.com/"]
  ∧ List 2 s context.Background "certs/example.com" false stored = (Some (Ok []), stored)
  ∧ (List 2 s context.Background "certs/example.com" false stored).1
    ≠ Some (Ok ["certs/example.com/cert.pem"])
  ∧ List 3 s context.Background "certs/example.com" false sibling
    = (Some (Ok ["certs/example.comX"]), sibling).
Proof. by vm_compute. Qed.

(** *** Exclusion while no marker is reclaimed *)

Lemma head_result ctx bucket k svc result svc' :
  oss.HeadObject serviceClient ctx (HeadObjectRequest.mk bucket k) svc = (Ok result, svc') →
  ∃ o, objects svc !! (bucket, k) = Some o
       ∧ HeadObjectResult.LastModified result = Some (Object.LastModified o).
Proof.
  simpl. unfold request, serveHead.
  destruct (context.Done ctx (clock svc)); [done|].
  destruct (faults svc) as [|[err|] rest]; simpl; try done;
    destruct (objects svc !! (bucket, k)) as [o|]; try done;
    intros [= <- <-]; by exists o.
Qed.

Lemma lockStep_clock_mono bucket a ctx key pt svc pt' svc' :
  lockStep (storageOn bucket a) ctx key pt svc = (pt', svc') →
  (clock svc <= clock svc')%Z.
Proof.
  pose proof LockPollInterval_pos as Hpos.
  destruct pt; cbn [lockStep storageOn client].
  - destruct (oss.PutObject _ _ _ _) as [r svc1] eqn:Hput.
    destruct (put_answer _ _ _ _ _ Hput) as [Hc _].
    destruct r as [[]|err]; [|destruct (lockAlreadyExists err)];
      intros [= <- <-]; lia.
  - destruct (oss.HeadObject _ _ _ _) as [r svc1] eqn:Hh.
    destruct (head_answer _ _ _ _ _ Hh) as [Hc _].
    destruct r as [result|e]; [destruct (lockExpired _ _)|];
      intros [= <- <-]; lia.
  - destruct (oss.DeleteObject _ _ _ _) as [r svc1] eqn:Hdel.
    destruct (delete_answer _ _ _ _ _ Hdel) as [Hc _].
    destruct (lockDeleted r); intros [= <- <-]; lia.
  - simpl. unfold serviceSelect.
    destruct ctx as [|t|t]; try destruct (t <? clock svc + LockPollInterval)%Z;
      intros [= <- <-]; simpl; lia.
  - intros [= <- <-]. lia.
Qed.

Lemma runSchedule_clock_mono bucket a schedule : ∀ callers svc,
  (clock svc <= clock (runSchedule (storageOn bucket a) schedule callers svc).2)%Z.
Proof.
  induction schedule as [|i rest IH]; intros callers svc; simpl; [lia|].
  destruct (callers !! i) as [c|]; [|apply IH].
  unfold stepCaller.
  destruct (lockStep _ _ _ _ svc) as [pt' svc1] eqn:Hstep.
  apply lockStep_clock_mono in Hstep. etrans; [exact Hstep|apply IH].
Qed.

(** One step of a caller that is not deleting a marker: either it is the
    conditional put that creates the marker, absent until then, and the
    caller returns [nil]; or the objects stay as they are, the caller does
    not newly return [nil], and it moves on to delete the marker only if
    the marker is expired at that instant. *)
Lemma lockStep_service_cases bucket a ctx key pt svc pt' svc' :
  lockStep (storageOn bucket a) ctx key pt svc = (pt', svc') →
  pt ≠ AtDelete →
  (pt' = Returned None
   ∧ objects svc !! (bucket, key +:+ ".lock") = None
   ∧ objects svc' = <[(bucket, key +:+ ".lock") := Object.mk [] (clock svc)]> (objects svc))
  ∨ (objects svc' = objects svc
     ∧ (pt' = Returned None → pt = Returned None)
     ∧ (pt' = AtDelete →
        ∃ o, objects svc !! (bucket, key +:+ ".lock") = Some o
             ∧ (Object.LastModified o + LockExpiration < clock svc')%Z)).
Proof.
  destruct pt; cbn [lockStep storageOn client]; intros Hstep Hpt; [| | done | |].
  - destruct (oss.PutObject _ _ _ _) as [r svc1] eqn:Hput.
    destruct (put_answer _ _ _ _ _ Hput) as [_ Ho].
    destruct r as [[]|err].
    + injection Hstep as <- <-. left.
      destruct (conditional_put_creates_once _ _ _ _ _ _ Hput) as [Hnone _].
      done.
    + right. destruct (lockAlreadyExists err); injection Hstep as <- <-; done.
  - destruct (oss.HeadObject _ _ _ _) as [r svc1] eqn:Hh.
    destruct (head_answer _ _ _ _ _ Hh) as [Hc Ho]. right.
    destruct r as [result|e]; [|by injection Hstep as <- <-].
    destruct (head_result _ _ _ _ _ _ Hh) as [o [Hk Hlm]].
    destruct (lockExpired result (Now svc1)) eqn:Hexp;
      injection Hstep as <- <-; (split; [done|]); (split; [done|]); [|done].
    intros _. exists o. split; [done|].
    unfold lockExpired in Hexp. rewrite Hlm in Hexp.
    unfold Before, Add in Hexp. by apply Z.ltb_lt in Hexp.
  - right. simpl in Hstep. unfold serviceSelect in Hstep.
    destruct ctx as [|t|t]; try destruct (t <? clock svc + LockPollInterval)%Z;
      injection Hstep as <- <-; done.
  - right. by injection Hstep as <- <-.
Qed.

Lemma stepCaller_exclusive bucket a t0 callers svc i c c' svc' :
  exclusive bucket callers svc →
  freshMarkers t0 svc →
  (t0 <= clock svc)%Z →
  callers !! i = Some c →
  stepCaller (storageOn bucket a) c svc = (c', svc') →
  (clock svc' <= t0 + LockExpiration)%Z →
  exclusive bucket (<[i := c']> callers) svc' ∧ freshMarkers t0 svc'.
Proof.
  intros (Hnodel & Hheld & Hone) Hfresh Ht0 Hi Hstep Hbound.
  unfold stepCaller in Hstep.
  destruct (lockStep _ _ _ _ svc) as [pt' svc1] eqn:Hls.
  injection Hstep as <- <-.
  pose proof (lockStep_clock_mono _ _ _ _ _ _ _ _ Hls) as Hmono.
  apply lockStep_service_cases in Hls; [|by eapply Hnodel].
  assert (Hlen : i < length callers) by (by eapply lookup_lt_Some).
  destruct Hls as [(-> & Hnone & Ho) | (Ho & Hret & Hdel)].
  - (* the caller created the marker *)
    split; [|intros k o; rewrite Ho; intros [[_ <-]|[_ Hk]]%lookup_insert_Some;
               [simpl; lia|by eapply Hfresh]].
    split; [|split].
    + intros j cj [(<- & <- & _)|[_ Hj]]%list_lookup_insert_Some; [done|by eapply Hnodel].
    + intros j cj [(<- & <- & _)|[_ Hj]]%list_lookup_insert_Some Hr; simpl in *;
        rewrite Ho.
      * rewrite lookup_insert_eq. by eexists.
      * destruct (Hheld j cj Hj Hr) as [o Hk].
        destruct (decide ((bucket, callerKey c +:+ ".lock")
                          = (bucket, callerKey cj +:+ ".lock"))) as [->|Hne].
        -- rewrite lookup_insert_eq. by eexists.
        -- rewrite lookup_insert_ne by done. by eexists.
    + intros j1 j2 c1 c2
        [(<- & <- & _)|[Hne1 Hj1]]%list_lookup_insert_Some
        [(<- & <- & _)|[Hne2 Hj2]]%list_lookup_insert_Some Hkey Hr1 Hr2;
        simpl in *; [done| | |by eapply Hone].
      * destruct (Hheld j2 c2 Hj2 Hr2) as [o Hk]. rewrite <- Hkey in Hk. congruence.
      * destruct (Hheld j1 c1 Hj1 Hr1) as [o Hk]. rewrite Hkey in Hk. congruence.
  - (* the objects are unchanged *)
    split; [|intros k o; rewrite Ho; by eapply Hfresh].
    split; [|split].
    + intros j cj [(<- & <- & _)|[_ Hj]]%list_lookup_insert_Some; [|by eapply Hnodel].
      simpl. intros Hat. destruct (Hdel Hat) as [o [Hk Hlt]].
      specialize (Hfresh _ _ Hk). lia.
    + intros j cj [(<- & <- & _)|[_ Hj]]%list_lookup_insert_Some Hr; simpl in *;
        rewrite Ho; [|by eapply Hheld].
      by apply (Hheld i c Hi), Hret.
    + intros j1 j2 c1 c2
        [(<- & <- & _)|[Hne1 Hj1]]%list_lookup_insert_Some
        [(<- & <- & _)|[Hne2 Hj2]]%list_lookup_insert_Some Hkey Hr1 Hr2;
        simpl in *; [done| | |by eapply Hone].
      * by apply (Hone i j2 c c2 Hi Hj2 Hkey (Hret Hr1) Hr2).
      * by apply (Hone j1 i c1 c Hj1 Hi Hkey Hr1 (Hret Hr2)).
Qed.

(** Exclusion while no marker is reclaimed.  Any number of callers, any
    schedule, any injected faults: if every marker on the service was
    written at [t0] or later and the run ends no later than
    [t0 + LockExpiration], no caller deletes a marker and no two callers of
    the same key return [nil]. *)
Lemma runSchedule_exclusive bucket a t0 schedule : ∀ callers svc,
  exclusive bucket callers svc →
  freshMarkers t0 svc →
  (t0 <= clock svc)%Z →
  (clock (runSchedule (storageOn bucket a) schedule callers svc).2
   <= t0 + LockExpiration)%Z →
  exclusive bucket (runSchedule (storageOn bucket a) schedule callers svc).1
    (runSchedule (storageOn bucket a) schedule callers svc).2.
Proof.
  induction schedule as [|i rest IH]; intros callers svc Hex Hfresh Ht0 Hend;
    simpl in *; [done|].
  destruct (callers !! i) as [c|] eqn:Hi; [|by apply IH].
  destruct (stepCaller (storageOn bucket a) c svc) as [c' svc1] eqn:Hstep.
  assert (Hmono1 : (clock svc <= clock svc1)%Z).
  { unfold stepCaller in Hstep.
    destruct (lockStep _ _ _ _ svc) as [pt' svc2] eqn:Hls.
    injection Hstep as <- <-. by eapply lockStep_clock_mono. }
  pose proof (runSchedule_clock_mono bucket a rest (<[i := c']> callers) svc1) as Hmono.
  destruct (stepCaller_exclusive bucket a t0 callers svc i c c' svc1)
    as [Hex1 Hfresh1]; try done; [lia|].
  apply IH; try done. lia.
Qed.

(** *** The example scenario *)

(** A key exists after [Store] and no longer after [Delete]; a second
    [Delete] still returns [nil]. *)
Example store_exists_delete :
  let s := storageOn "b" cleartext in
  let key := "certs/example.com/cert.pem" in
  let w0 := emptyService 0 in
  let w1 := (Store s context.Background key (bytesOf "PEM-DATA") w0).2 in
  let w2 := (Delete s context.Background key w1).2 in
  (Exists s context.Background key w0).1 = false
  ∧ (Store s context.Background key (bytesOf "PEM-DATA") w0).1 = None
  ∧ (Exists s context.Background key w1).1 = true
  ∧ (Delete s context.Background key w1).1 = None
  ∧ (Exists s context.Background key w2).1 = false
  ∧ (Delete s context.Background key w2).1 = None.
Proof. by vm_compute. Qed.

(** A caller alone on a held marker that is never released acquires the
    lock once the lease has run out: after sixty waits of
    [LockPollInterval] the marker is not yet expired, after the sixty-first
    it is, and the caller reclaims it and returns [nil] in the next turn. *)
Example Lock_reclaims_after_lease :
  let s := storageOn "b" cleartext in
  let held := (Lock 1 s context.Background "r" (emptyService 0)).2 in
  (Lock 1 s context.Background "r" (emptyService 0)).1 = Some None
  ∧ (Lock 62 s context.Background "r" held).1 = None
  ∧ (Lock 63 s context.Background "r" held).1 = Some None
  ∧ clock (Lock 63 s context.Background "r" held).2
    = (LockExpiration + LockPollInterval)%Z.
Proof. by vm_compute. Qed.

(** ** Further properties of the key/value methods *)

(** X1. The life of a key seen through [Exists].  On a service that
    answers, [Exists] tells whether the key holds an object: it is false
    for a key without object, true once [Store] has returned [nil], and
    false again once [Delete] has returned [nil], the bucket being then as
    it was before the [Store]. *)
Theorem Exists_follows_Store_and_Delete bucket a ctx key v ciphertext svc :
  tink.Encrypt a v (bytesOf key) = Ok ciphertext →
  context.Done ctx (clock svc) = false →
  faults svc = [] →
  objects svc !! (bucket, key) = None →
  Exists (storageOn bucket a) ctx key svc = (false, svc)
  ∧ ∃ svc1 svc2,
      Store (storageOn bucket a) ctx key v svc = (None, svc1)
      ∧ Exists (storageOn bucket a) ctx key svc1 = (true, svc1)
      ∧ Delete (storageOn bucket a) ctx key svc1 = (None, svc2)
      ∧ Exists (storageOn bucket a) ctx key svc2 = (false, svc2)
      ∧ objects svc2 = objects svc.
Proof.
  intros Henc Hd Hf Hnone.
  assert (Hexists : ∀ svc0, context.Done ctx (clock svc0) = false → faults svc0 = [] →
            Exists (storageOn bucket a) ctx key svc0
            = (match objects svc0 !! (bucket, key) with Some _ => true | None => false end,
               svc0)).
  { intros svc0 Hd0 Hf0. unfold Exists; simpl. rewrite request_live by done.
    unfold serveHead; simpl. by destruct (objects svc0 !! (bucket, key)). }
  split.
  { rewrite Hexists by done. by rewrite Hnone. }
  exists (setObjects svc (<[(bucket, key) := Object.mk ciphertext (clock svc)]> (objects svc))).
  exists (setObjects svc (delete (bucket, key)
            (<[(bucket, key) := Object.mk ciphertext (clock svc)]> (objects svc)))).
  split.
  { unfold Store; simpl. rewrite Henc, request_live by done.
    by rewrite servePut_overwrite. }
  split.
  { rewrite Hexists by done. simpl. by rewrite lookup_insert_eq. }
  split.
  { unfold Delete; simpl. rewrite request_live by done.
    unfold serveDelete; simpl. by rewrite lookup_insert_eq. }
  split.
  { rewrite Hexists by done. simpl. by rewrite lookup_delete_eq. }
  simpl. rewrite delete_insert_eq. by apply delete_id.
Qed.

Lemma Exists_follows_Store_and_Delete_witness :
  let s := storageOn "b" tagging in
  Exists s context.Background "k" (emptyService 0) = (false, emptyService 0)
  ∧ ∃ svc1 svc2,
      Store s context.Background "k" (bytesOf "data") (emptyService 0) = (None, svc1)
      ∧ Exists s context.Background "k" svc1 = (true, svc1)
      ∧ Delete s context.Background "k" svc1 = (None, svc2)
      ∧ Exists s context.Background "k" svc2 = (false, svc2)
      ∧ objects svc2 = objects (emptyService 0).
Proof.
  apply (Exists_follows_Store_and_Delete "b" tagging context.Background "k"
           (bytesOf "data") (bytesOf "kdata") (emptyService 0)); reflexivity.
Defined.

(** X2. [Exists] answers false whenever the probe fails, whatever the
    error: for any client a failed [HeadObject] gives false, and on the
    service a key that does hold an object is reported as not existing when
    the context is done or the request fails in transit. *)
Theorem Exists_false_on_any_error :
  (∀ W (s : Storage W) ctx key w err w',
      oss.HeadObject (client s) ctx (HeadObjectRequest.mk (bucketName s) key) w
      = (Err err, w') →
      Exists s ctx key w = (false, w'))
  ∧ (∀ bucket a ctx key svc o,
        objects svc !! (bucket, key) = Some o →
        context.Done ctx (clock svc) = true ∨ (∃ err rest, faults svc = Some err :: rest) →
        (Exists (storageOn bucket a) ctx key svc).1 = false
        ∧ objects (Exists (storageOn bucket a) ctx key svc).2 = objects svc).
Proof.
  split.
  - intros W s ctx key w err w' Hh. unfold Exists. rewrite Hh.
    by destruct (hasErrorCode err "NoSuchKey").
  - intros bucket a ctx key svc o Ho [Hd|[err [rest Hf]]]; unfold Exists; simpl.
    + rewrite request_done by done. by destruct (hasErrorCode _ "NoSuchKey").
    + unfold request. rewrite Hf.
      destruct (context.Done ctx (clock svc)); simpl;
        by destruct (hasErrorCode _ "NoSuchKey").
Qed.

Lemma Exists_false_on_any_error_witness :
  let s := storageOn "b" cleartext in
  let stored := (Store s context.Background "k" (bytesOf "data") (emptyService 5)).2 in
  objects stored !! ("b", "k") = Some (Object.mk (bytesOf "data") 5)
  ∧ context.Done (context.WithCancel 3) (clock stored) = true
  ∧ (Exists s (context.WithCancel 3) "k" stored).1 = false
  ∧ objects (Exists s (context.WithCancel 3) "k" stored).2 = objects stored.
Proof.
  cbv zeta. split; [reflexivity|]. split; [reflexivity|].
  apply (proj2 Exists_false_on_any_error "b" cleartext (context.WithCancel 3) "k"
           (Store (storageOn "b" cleartext) context.Background "k" (bytesOf "data")
              (emptyService 5)).2 (Object.mk (bytesOf "data") 5)).
  - reflexivity.
  - left. reflexivity.
Defined.

(** X3. "Not found" on [Load].  For any client, a [GetObject] error that
    carries the code "NoSuchKey" anywhere in its chain makes [Load] return
    exactly [fs.ErrNotExist]; any other error is returned wrapped, so it is
    [fs.ErrNotExist] for [errors.Is] only if the client's error was.  On a
    service that answers, [Load] of a key without object returns
    [fs.ErrNotExist] and leaves the service as it was. *)
Theorem Load_not_found :
  (∀ W (s : Storage W) ctx key w err w',
      oss.GetObject (client s) ctx (GetObjectRequest.mk (bucketName s) key) w
      = (Err err, w') →
      (hasErrorCode err "NoSuchKey" = true → Load s ctx key w = (Err ErrNotExist, w'))
      ∧ (hasErrorCode err "NoSuchKey" = false →
         ∃ e, Load s ctx key w = (Err e, w')
              ∧ errors.Is e ErrNotExist = errors.Is err ErrNotExist
              ∧ errors.AsServiceError e = errors.AsServiceError err))
  ∧ (∀ bucket a ctx key svc,
        context.Done ctx (clock svc) = false →
        faults svc = [] →
        objects svc !! (bucket, key) = None →
        Load (storageOn bucket a) ctx key svc = (Err ErrNotExist, svc)).
Proof.
  split.
  - intros W s ctx key w err w' Hg. unfold Load. rewrite Hg.
    split; intros ->; [done|]. by eexists.
  - intros bucket a ctx key svc Hd Hf Hnone. unfold Load; simpl.
    rewrite request_live by done. unfold serveGet; simpl. by rewrite Hnone.
Qed.

Lemma Load_not_found_witness :
  let s := storageOn "b" cleartext in
  Load s context.Background "does/not/exists" (emptyService 0)
  = (Err ErrNotExist, emptyService 0)
  ∧ Load s context.Background "k"
      (setFaults (emptyService 0)
         [Some (Errorf "operation error GetObject" (ServiceError 404 "NoSuchKey"))])
    = (Err ErrNotExist, emptyService 0).
Proof.
  split.
  - apply (proj2 Load_not_found); reflexivity.
  - apply (proj1 (proj1 Load_not_found Service (storageOn "b" cleartext)
                    context.Background "k"
                    (setFaults (emptyService 0)
                       [Some (Errorf "operation error GetObject"
                                (ServiceError 404 "NoSuchKey"))])
                    (Errorf "operation error GetObject" (ServiceError 404 "NoSuchKey"))
                    (emptyService 0) eq_refl)).
    reflexivity.
Defined.

Lemma Store_service bucket a ctx key v ciphertext svc :
  tink.Encrypt a v (bytesOf key) = Ok ciphertext →
  context.Done ctx (clock svc) = false →
  faults svc = [] →
  Store (storageOn bucket a) ctx key v svc
  = (None, setObjects svc
             (<[(bucket, key) := Object.mk ciphertext (clock svc)]> (objects svc))).
Proof.
  intros Henc Hd Hf. unfold Store; simpl.
  rewrite Henc, request_live by done. by rewrite servePut_overwrite.
Qed.

(** X4. [Store] overwrites and touches nothing else.  On a service that
    answers, two [Store]s to the same key both return [nil], a following
    [Load] returns the second value, and every other object of the service
    is as before. *)
Theorem Store_last_write_wins a bucket ctx key v1 v2 c1 c2 svc :
  opensWhatItSeals a →
  tink.Encrypt a v1 (bytesOf key) = Ok c1 →
  tink.Encrypt a v2 (bytesOf key) = Ok c2 →
  context.Done ctx (clock svc) = false →
  faults svc = [] →
  ∃ svc1 svc2,
    Store (storageOn bucket a) ctx key v1 svc = (None, svc1)
    ∧ Store (storageOn bucket a) ctx key v2 svc1 = (None, svc2)
    ∧ Load (storageOn bucket a) ctx key svc2 = (Ok v2, svc2)
    ∧ ∀ k, k ≠ (bucket, key) → objects svc2 !! k = objects svc !! k.
Proof.
  intros Ha H1 H2 Hd Hf.
  pose proof (Store_service bucket a ctx key v1 c1 svc H1 Hd Hf) as Hs1.
  set (svc1 := setObjects svc (<[(bucket, key) := Object.mk c1 (clock svc)]> (objects svc))) in *.
  pose proof (Store_service bucket a ctx key v2 c2 svc1 H2 Hd Hf) as Hs2.
  eexists _, _. split; [exact Hs1|]. split; [exact Hs2|]. split.
  - unfold Load; simpl. rewrite request_live by done.
    unfold serveGet; simpl. rewrite lookup_insert_eq; simpl.
    by rewrite (Ha _ _ _ H2).
  - intros k Hk. simpl. by rewrite !lookup_insert_ne.
Qed.

Lemma Store_last_write_wins_witness :
  ∃ svc1 svc2,
    Store (storageOn "b" tagging) context.Background "k" (bytesOf "old") (emptyService 0)
    = (None, svc1)
    ∧ Store (storageOn "b" tagging) context.Background "k" (bytesOf "new") svc1
      = (None, svc2)
    ∧ Load (storageOn "b" tagging) context.Background "k" svc2 = (Ok (bytesOf "new"), svc2)
    ∧ ∀ k, k ≠ ("b", "k") → objects svc2 !! k = objects (emptyService 0) !! k.
Proof.
  apply (Store_last_write_wins tagging "b" context.Background "k" (bytesOf "old")
           (bytesOf "new") (bytesOf "kold") (bytesOf "knew") (emptyService 0));
    [exact tagging_opensWhatItSeals|reflexivity..].
Defined.

(** X5. How [Store] fails, whatever the client.  When the codec refuses
    to seal the value, [Store] returns that error wrapped and makes no
    request: the world is the one before the call.  When the put of the
    sealed value fails, [Store] returns that error wrapped and makes no
    further request, neither a retry nor a clean-up: the world is the one
    the failed put left, in which, with a client whose answer can be lost,
    the object may have been written.  [Store] returns [nil] only when the
    codec sealed the value and the put of the sealed value succeeded. *)
Theorem Store_error_paths :
  (∀ W (s : Storage W) ctx key v w err,
      tink.Encrypt (aead s) v (bytesOf key) = Err err →
      Store s ctx key v w = (Some (Errorf ("encrypting object " +:+ key) err), w))
  ∧ (∀ W (s : Storage W) ctx key v w encrypted err w',
        tink.Encrypt (aead s) v (bytesOf key) = Ok encrypted →
        oss.PutObject (client s) ctx
          (PutObjectRequest.mk (bucketName s) key encrypted None) w = (Err err, w') →
        Store s ctx key v w = (Some (Errorf ("writing object " +:+ key) err), w'))
  ∧ (∀ W (s : Storage W) ctx key v w w',
        Store s ctx key v w = (None, w') →
        ∃ encrypted,
          tink.Encrypt (aead s) v (bytesOf key) = Ok encrypted
          ∧ oss.PutObject (client s) ctx
              (PutObjectRequest.mk (bucketName s) key encrypted None) w = (Ok tt, w')).
Proof.
  split; [|split].
  - intros W s ctx key v w err Henc. unfold Store. by rewrite Henc.
  - intros W s ctx key v w encrypted err w' Henc Hput. unfold Store.
    by rewrite Henc, Hput.
  - intros W s ctx key v w w'. unfold Store.
    destruct (tink.Encrypt (aead s) v (bytesOf key)) as [encrypted|e]; [|done].
    destruct (oss.PutObject (client s) ctx _ w) as [[[]|e] w1] eqn:Hput; [|done].
    intros [= <-]. by exists encrypted.
Qed.

Lemma Store_error_paths_witness :
  let refusing := tink.mkAEAD (λ _ _, Err (ErrorString "aead: invalid key"))
                    (λ ciphertext _, Ok ciphertext) in
  let held := setObjects (emptyService 9) {[ ("b", "k") := Object.mk (bytesOf "old") 1 ]} in
  let written := setObjects (emptyService 9) {[ ("b", "k") := Object.mk (bytesOf "new") 9 ]} in
  Store (storageOn "b" refusing) context.Background "k" (bytesOf "new") held
  = (Some (Errorf "encrypting object k" (ErrorString "aead: invalid key")), held)
  ∧ Store (mkStorage lostAnswerClient "b" cleartext) context.Background "k" (bytesOf "new") held
    = (Some (Errorf "writing object k" lostAnswer), written).
Proof.
  cbv zeta. split.
  - apply (proj1 Store_error_paths Service
             (storageOn "b" (tink.mkAEAD (λ _ _, Err (ErrorString "aead: invalid key"))
                               (λ ciphertext _, Ok ciphertext)))
             context.Background "k" (bytesOf "new")).
    reflexivity.
  - apply (proj1 (proj2 Store_error_paths) Service (mkStorage lostAnswerClient "b" cleartext)
             context.Background "k" (bytesOf "new")
             (setObjects (emptyService 9) {[ ("b", "k") := Object.mk (bytesOf "old") 1 ]})
             (bytesOf "new") lostAnswer
             (setObjects (emptyService 9) {[ ("b", "k") := Object.mk (bytesOf "new") 9 ]}));
      [reflexivity|by vm_compute].
Defined.

Lemma String_length_append (s1 s2 : string) :
  String.length (s1 +:+ s2) = String.length s1 + String.length s2.
Proof. induction s1 as [|c s1 IH]; simpl; [done|]. by rewrite IH. Qed.

Lemma objLockName_is_not_key (key : string) : key ≠ key +:+ ".lock".
Proof.
  intros Heq. apply (f_equal String.length) in Heq.
  rewrite String_length_append in Heq. simpl in Heq. lia.
Qed.

(** X6. [Delete] removes the key and nothing else.  On a service that
    answers it returns [nil] whether or not the key holds an object, the
    key holds no object afterwards, and every other object, the lock
    marker [key + ".lock"] included, is as before. *)
Theorem Delete_removes_only_the_key bucket a ctx key svc :
  context.Done ctx (clock svc) = false →
  faults svc = [] →
  ∃ svc',
    Delete (storageOn bucket a) ctx key svc = (None, svc')
    ∧ objects svc' = delete (bucket, key) (objects svc)
    ∧ objects svc' !! (bucket, key +:+ ".lock") = objects svc !! (bucket, key +:+ ".lock").
Proof.
  intros Hd Hf. unfold Delete; simpl. rewrite request_live by done.
  assert (Hlock : (bucket, key) ≠ (bucket, key +:+ ".lock")).
  { intros [= Heq]. by apply objLockName_is_not_key in Heq. }
  unfold serveDelete; simpl.
  destruct (objects svc !! (bucket, key)) eqn:Hk.
  - eexists. split; [done|]. simpl. split; [done|]. by rewrite lookup_delete_ne.
  - exists svc. rewrite delete_id by done. by destruct (strictDelete svc).
Qed.

Lemma Delete_removes_only_the_key_witness :
  let svc := setObjects (emptyService 9)
               {[ ("b", "k") := Object.mk (bytesOf "v") 1; ("b", "k.lock") := Object.mk [] 2 ]} in
  ∃ svc',
    Delete (storageOn "b" cleartext) context.Background "k" svc = (None, svc')
    ∧ objects svc' = delete ("b", "k") (objects svc)
    ∧ objects svc' !! ("b", "k" +:+ ".lock") = objects svc !! ("b", "k" +:+ ".lock").
Proof.
  apply (Delete_removes_only_the_key "b" cleartext context.Background "k"); reflexivity.
Defined.

(** ** Further properties of the lock *)

Section LockOnService.

Variables (bucket : string) (a : tink.AEAD) (key : string).

Lemma lock_put_free ctx svc :
  context.Done ctx (clock svc) = false →
  faults svc = [] →
  objects svc !! (bucket, key +:+ ".lock") = None →
  oss.PutObject serviceClient ctx (lockPutRequest (storageOn bucket a) key) svc
  = (Ok tt, setObjects svc
              (<[(bucket, key +:+ ".lock") := Object.mk [] (clock svc)]> (objects svc))).
Proof.
  intros Hd Hf Hnone. simpl. rewrite request_live by done.
  unfold servePut; simpl; unfold objLockName. by rewrite Hnone.
Qed.

Lemma lock_put_held ctx svc o :
  context.Done ctx (clock svc) = false →
  faults svc = [] →
  objects svc !! (bucket, key +:+ ".lock") = Some o →
  oss.PutObject serviceClient ctx (lockPutRequest (storageOn bucket a) key) svc
  = (Err fileAlreadyExists, svc).
Proof.
  intros Hd Hf Ho. simpl. rewrite request_live by done.
  unfold servePut; simpl; unfold objLockName. by rewrite Ho.
Qed.

Lemma lock_head_held ctx svc o :
  context.Done ctx (clock svc) = false →
  faults svc = [] →
  objects svc !! (bucket, key +:+ ".lock") = Some o →
  oss.HeadObject serviceClient ctx (lockHeadRequest (storageOn bucket a) key) svc
  = (Ok (HeadObjectResult.mk (Some (Object.LastModified o))
           (Z.of_nat (length (Object.Content o)))), svc).
Proof.
  intros Hd Hf Ho. simpl. rewrite request_live by done.
  unfold serveHead; simpl; unfold objLockName. by rewrite Ho.
Qed.

Lemma lock_delete_held ctx svc o :
  context.Done ctx (clock svc) = false →
  faults svc = [] →
  objects svc !! (bucket, key +:+ ".lock") = Some o →
  oss.DeleteObject serviceClient ctx (lockDeleteRequest (storageOn bucket a) key) svc
  = (Ok tt, setObjects svc (delete (bucket, key +:+ ".lock") (objects svc))).
Proof.
  intros Hd Hf Ho. simpl. rewrite request_live by done.
  unfold serveDelete; simpl; unfold objLockName. by rewrite Ho.
Qed.

Lemma lock_free_turn ctx fuel svc :
  context.Done ctx (clock svc) = false →
  faults svc = [] →
  objects svc !! (bucket, key +:+ ".lock") = None →
  Lock (S fuel) (storageOn bucket a) ctx key svc
  = (Some None,
     setObjects svc
       (<[(bucket, key +:+ ".lock") := Object.mk [] (clock svc)]> (objects svc))).
Proof.
  intros Hd Hf Hnone. rewrite Lock_turn. cbn [client storageOn].
  by rewrite lock_put_free.
Qed.

(** X7. A free lock is taken at once.  On a service that answers, when no
    object is at [key + ".lock"], [Lock] returns [nil] in its first turn:
    the only change is the new marker, stamped with the current instant;
    the clock has not moved, there was no wait. *)
Theorem Lock_free_key_acquires_at_once ctx fuel svc :
  context.Done ctx (clock svc) = false →
  faults svc = [] →
  objects svc !! (bucket, key +:+ ".lock") = None →
  ∃ svc',
    Lock (S fuel) (storageOn bucket a) ctx key svc = (Some None, svc')
    ∧ objects svc'
      = <[(bucket, key +:+ ".lock") := Object.mk [] (clock svc)]> (objects svc)
    ∧ clock svc' = clock svc.
Proof.
  intros Hd Hf Hnone. eexists. split; [by apply lock_free_turn|]. done.
Qed.

(** X8. While the marker is held and its lease has not run out, a waiting
    caller does not get the lock: with the marker written at [t], a caller
    under the background context is still looping after [n] turns as long
    as its [n]-th probe happens no later than [t + LockExpiration]; it has
    changed nothing but the clock, advanced by [n] waits. *)
Theorem Lock_waits_while_held n : ∀ svc o,
  faults svc = [] →
  objects svc !! (bucket, key +:+ ".lock") = Some o →
  (clock svc + (Z.of_nat n - 1) * LockPollInterval
   <= Object.LastModified o + LockExpiration)%Z →
  Lock n (storageOn bucket a) context.Background key svc
  = (None, setClock svc (clock svc + Z.of_nat n * LockPollInterval)).
Proof.
  pose proof LockPollInterval_pos as Hpos.
  induction n as [|n IH]; intros svc o Hf Ho Hle.
  { simpl. destruct svc; unfold setClock; simpl. do 2 f_equal. lia. }
  rewrite Lock_turn. cbn [client storageOn].
  rewrite (lock_put_held _ _ o) by done. change (lockAlreadyExists fileAlreadyExists) with true. cbv iota.
  rewrite (lock_head_held _ _ o) by done.
  unfold lockExpired, Before, Add. cbn [HeadObjectResult.LastModified Now serviceRuntime].
  replace (Object.LastModified o + LockExpiration <? clock svc)%Z with false
    by (symmetry; apply Z.ltb_ge; durations).
  unfold lockWait. cbn [SelectAfterOrDone serviceRuntime serviceSelect].
  rewrite (IH _ o); [|done|done|cbn [clock setClock]; durations].
  unfold setClock; cbn [objects clock faults strictDelete maxKeys]. do 2 f_equal. durations.
Qed.

(** X9. A lease that has run out is reclaimed.  A caller alone, under the
    background context, on a marker written at [t] and never released:
    whatever the instant it starts at, [Lock] returns [nil], no later than
    one [LockPollInterval] after the lease ran out (at once when it had
    already run out), and the marker is then the caller's own, stamped
    with the instant of the return. *)
Theorem Lock_reclaims_expired_marker n : ∀ svc o,
  faults svc = [] →
  objects svc !! (bucket, key +:+ ".lock") = Some o →
  (Object.LastModified o + LockExpiration < clock svc + Z.of_nat n * LockPollInterval)%Z →
  ∃ svc',
    Lock (n + 2) (storageOn bucket a) context.Background key svc = (Some None, svc')
    ∧ objects svc'
      = <[(bucket, key +:+ ".lock") := Object.mk [] (clock svc')]> (objects svc)
    ∧ (Object.LastModified o + LockExpiration < clock svc')%Z
    ∧ (clock svc'
       <= Z.max (clock svc) (Object.LastModified o + LockExpiration + LockPollInterval))%Z.
Proof.
  pose proof LockPollInterval_pos as Hpos.
  assert (Hnow : ∀ fuel svc o,
            faults svc = [] →
            objects svc !! (bucket, key +:+ ".lock") = Some o →
            (Object.LastModified o + LockExpiration < clock svc)%Z →
            ∃ svc',
              Lock (S (S fuel)) (storageOn bucket a) context.Background key svc
              = (Some None, svc')
              ∧ objects svc'
                = <[(bucket, key +:+ ".lock") := Object.mk [] (clock svc')]> (objects svc)
              ∧ clock svc' = clock svc).
  { intros fuel svc o Hf Ho Hlt.
    rewrite Lock_turn. cbn [client storageOn].
    rewrite (lock_put_held _ _ o) by done. change (lockAlreadyExists fileAlreadyExists) with true. cbv iota.
    rewrite (lock_head_held _ _ o) by done.
    unfold lockExpired, Before, Add. cbn [HeadObjectResult.LastModified Now serviceRuntime].
    replace (Object.LastModified o + LockExpiration <? clock svc)%Z with true
      by (symmetry; by apply Z.ltb_lt).
    rewrite (lock_delete_held _ _ o) by done. cbn [lockDeleted].
    rewrite lock_free_turn; [|done|done|simpl; apply lookup_delete_eq].
    eexists. split; [reflexivity|]. simpl. split; [|done].
    by rewrite insert_delete_eq. }
  induction n as [|n IH]; intros svc o Hf Ho Hlt.
  { destruct (Hnow 0 svc o) as (svc' & HL & Hobj & Hc); [done|done|durations|].
    exists svc'. split; [exact HL|]. split; [exact Hobj|]. rewrite Hc.
    split; durations. }
  destruct (Z.ltb_spec (Object.LastModified o + LockExpiration) (clock svc)) as [Hexp|Hnot].
  { destruct (Hnow (S n) svc o) as (svc' & HL & Hobj & Hc); [done|done|durations|].
    exists svc'. replace (S n + 2) with (S (S (S n))) by lia.
    split; [exact HL|]. split; [exact Hobj|]. rewrite Hc. split; durations. }
  replace (S n + 2) with (S (n + 2)) by lia.
  rewrite Lock_turn. cbn [client storageOn].
  rewrite (lock_put_held _ _ o) by done. change (lockAlreadyExists fileAlreadyExists) with true. cbv iota.
  rewrite (lock_head_held _ _ o) by done.
  unfold lockExpired, Before, Add. cbn [HeadObjectResult.LastModified Now serviceRuntime].
  replace (Object.LastModified o + LockExpiration <? clock svc)%Z with false
    by (symmetry; by apply Z.ltb_ge).
  unfold lockWait. cbn [SelectAfterOrDone serviceRuntime serviceSelect].
  destruct (IH (setClock svc (clock svc + LockPollInterval)) o)
    as (svc' & HL & Hobj & Hlt' & Hle'); [done|done|cbn [clock setClock]; durations|].
  exists svc'. split; [exact HL|]. split; [exact Hobj|]. split; [exact Hlt'|].
  cbn [clock setClock] in Hle'. durations.
Qed.

End LockOnService.

Lemma Lock_free_key_acquires_at_once_witness :
  ∃ svc',
    Lock 1 (storageOn "b" tagging) (context.WithCancel 50) "r" (emptyService 7)
    = (Some None, svc')
    ∧ objects svc'
      = <[("b", "r" +:+ ".lock") := Object.mk [] (clock (emptyService 7))]>
          (objects (emptyService 7))
    ∧ clock svc' = clock (emptyService 7).
Proof.
  apply (Lock_free_key_acquires_at_once "b" tagging "r" (context.WithCancel 50) 0
           (emptyService 7)); reflexivity.
Defined.

Lemma Lock_waits_while_held_witness :
  let held := setObjects (emptyService (30 * Second))
                {[ ("b", "r.lock") := Object.mk [] (10 * Second) ]} in
  (clock held + (Z.of_nat 41 - 1) * LockPollInterval
   <= Object.LastModified (Object.mk [] (10 * Second)) + LockExpiration)%Z
  ∧ Lock 41 (storageOn "b" cleartext) context.Background "r" held
    = (None, setClock held (clock held + Z.of_nat 41 * LockPollInterval)).
Proof.
  cbv zeta. split; [by vm_compute|].
  apply (Lock_waits_while_held "b" cleartext "r" 41 _ (Object.mk [] (10 * Second)));
    [reflexivity|reflexivity|by vm_compute].
Defined.

Lemma Lock_reclaims_expired_marker_witness :
  let held := setObjects (emptyService (30 * Second))
                {[ ("b", "r.lock") := Object.mk [] (10 * Second) ]} in
  (Object.LastModified (Object.mk [] (10 * Second)) + LockExpiration
   < clock held + Z.of_nat 41 * LockPollInterval)%Z
  ∧ ∃ svc',
      Lock (41 + 2) (storageOn "b" cleartext) context.Background "r" held
      = (Some None, svc')
      ∧ objects svc' = <[("b", "r" +:+ ".lock") := Object.mk [] (clock svc')]> (objects held)
      ∧ (Object.LastModified (Object.mk [] (10 * Second)) + LockExpiration < clock svc')%Z
      ∧ (clock svc'
         <= Z.max (clock held)
              (Object.LastModified (Object.mk [] (10 * Second)) + LockExpiration
               + LockPollInterval))%Z.
Proof.
  cbv zeta. split; [by vm_compute|].
  apply (Lock_reclaims_expired_marker "b" cleartext "r" 41 _ (Object.mk [] (10 * Second)));
    [reflexivity|reflexivity|by vm_compute].
Defined.

(** X10. Lock, Unlock, Lock.  On a service that answers, with the lock
    free: a first caller's [Lock] returns [nil]; a second caller then
    finds the lock held (its conditional put is refused); after the first
    caller's [Unlock], which returns [nil], the objects are those before
    the first [Lock], and the second caller's [Lock] returns [nil] in its
    first turn. *)
Theorem Lock_Unlock_Lock bucket a key ctx1 ctx2 svc :
  context.Done ctx1 (clock svc) = false →
  context.Done ctx2 (clock svc) = false →
  faults svc = [] →
  objects svc !! (bucket, key +:+ ".lock") = None →
  ∃ svc1 svc2 svc3,
    Lock 1 (storageOn bucket a) ctx1 key svc = (Some None, svc1)
    ∧ lockStep (storageOn bucket a) ctx2 key AtPut svc1 = (AtHead, svc1)
    ∧ Unlock (storageOn bucket a) ctx1 key svc1 = (None, svc2)
    ∧ objects svc2 = objects svc
    ∧ Lock 1 (storageOn bucket a) ctx2 key svc2 = (Some None, svc3).
Proof.
  intros Hd1 Hd2 Hf Hnone.
  eexists _, _, _. split; [by apply lock_free_turn|].
  split.
  { cbn [lockStep client storageOn].
    erewrite lock_put_held; [done|done|done|]. simpl. apply lookup_insert_eq. }
  split.
  { unfold Unlock, objLockName; simpl. rewrite request_live by done.
    unfold serveDelete; simpl. by rewrite lookup_insert_eq. }
  split.
  { simpl. rewrite delete_insert_eq. by apply delete_id. }
  apply lock_free_turn; [done|done|].
  simpl. apply lookup_delete_eq.
Qed.

Lemma Lock_Unlock_Lock_witness :
  ∃ svc1 svc2 svc3,
    Lock 1 (storageOn "b" cleartext) context.Background "r" (emptyService 0)
    = (Some None, svc1)
    ∧ lockStep (storageOn "b" cleartext) (context.WithCancel 9) "r" AtPut svc1
      = (AtHead, svc1)
    ∧ Unlock (storageOn "b" cleartext) context.Background "r" svc1 = (None, svc2)
    ∧ objects svc2 = objects (emptyService 0)
    ∧ Lock 1 (storageOn "b" cleartext) (context.WithCancel 9) "r" svc2 = (Some None, svc3).
Proof.
  apply (Lock_Unlock_Lock "b" cleartext "r" context.Background (context.WithCancel 9)
           (emptyService 0)); reflexivity.
Defined.

Lemma delete_frame ctx req svc r svc' :
  oss.DeleteObject serviceClient ctx req svc = (r, svc') →
  ∀ k, k ≠ (DeleteObjectRequest.Bucket req, DeleteObjectRequest.Key req) →
       objects svc' !! k = objects svc !! k.
Proof.
  simpl. unfold request, serveDelete.
  destruct (context.Done ctx (clock svc)); [by intros [= <- <-]|].
  destruct (faults svc) as [|[err|] rest]; simpl;
    try destruct (objects svc !! _) eqn:Hk; try destruct (strictDelete svc);
    intros [= <- <-] k Hne; simpl; try done; by rewrite lookup_delete_ne.
Qed.

(** X11. [Lock] touches nothing but its own marker.  However the call
    ends (with [nil], with an error, or still looping when the fuel runs
    out), whatever the faults and the context, every object of the service
    other than the one at [key + ".lock"] is as before: no data object and
    no marker of another key is created, changed or deleted. *)
Theorem Lock_touches_only_its_marker bucket a ctx key fuel : ∀ svc r svc',
  Lock fuel (storageOn bucket a) ctx key svc = (r, svc') →
  ∀ k, k ≠ (bucket, key +:+ ".lock") → objects svc' !! k = objects svc !! k.
Proof.
  induction fuel as [|fuel IH]; intros svc r svc' HL k Hk; [by injection HL as <- <-|].
  rewrite Lock_turn in HL.
  assert (Hwait : ∀ svc2, objects svc2 !! k = objects svc !! k →
            lockWait fuel (storageOn bucket a) ctx key svc2 = (r, svc') →
            objects svc' !! k = objects svc !! k).
  { intros svc2 H2 Hw. unfold lockWait in Hw.
    destruct (SelectAfterOrDone ctx LockPollInterval svc2) as [[] svc3] eqn:Hsel;
      destruct (select_answer _ _ _ _ _ Hsel) as [Ho _].
    - rewrite (IH _ _ _ Hw k Hk). by rewrite Ho.
    - injection Hw as <- <-. by rewrite Ho. }
  destruct (oss.PutObject _ ctx _ svc) as [[[]|err] svc1] eqn:Hput;
    destruct (put_answer _ _ _ _ _ Hput) as [_ Ho1]; simpl in Ho1.
  { injection HL as <- <-. rewrite Ho1. by rewrite lookup_insert_ne. }
  destruct (lockAlreadyExists err); cycle 1.
  { injection HL as <- <-. by rewrite Ho1. }
  destruct (oss.HeadObject _ ctx _ svc1) as [[result|e] svc2] eqn:Hh;
    destruct (head_answer _ _ _ _ _ Hh) as [_ Ho2];
    [|apply (Hwait svc2); [congruence|done]].
  destruct (lockExpired result (Now svc2)); [|apply (Hwait svc2); [congruence|done]].
  destruct (oss.DeleteObject _ ctx _ svc2) as [deleted svc3] eqn:Hdel.
  pose proof (delete_frame _ _ _ _ _ Hdel k Hk) as H3.
  destruct (lockDeleted deleted).
  - rewrite (IH _ _ _ HL k Hk). congruence.
  - apply (Hwait svc3); [congruence|done].
Qed.

Lemma Lock_touches_only_its_marker_witness :
  let svc := setObjects (emptyService (2 * Minute))
               {[ ("b", "r.lock") := Object.mk [] 0;
                  ("b", "q.lock") := Object.mk [] 1;
                  ("b", "r") := Object.mk (bytesOf "cert") 2 ]} in
  (Lock 2 (storageOn "b" cleartext) context.Background "r" svc).1 = Some None
  ∧ ∀ k, k ≠ ("b", "r" +:+ ".lock") →
         objects (Lock 2 (storageOn "b" cleartext) context.Background "r" svc).2 !! k
         = objects svc !! k.
Proof.
  cbv zeta. split; [by vm_compute|].
  apply (Lock_touches_only_its_marker "b" cleartext context.Background "r" 2 _
           (Lock 2 (storageOn "b" cleartext) context.Background "r"
              (setObjects (emptyService (2 * Minute))
                 {[ ("b", "r.lock") := Object.mk [] 0;
                    ("b", "q.lock") := Object.mk [] 1;
                    ("b", "r") := Object.mk (bytesOf "cert") 2 ]})).1).
  apply surjective_pairing.
Defined.

Lemma exclusive_at_start bucket callers svc :
  Forall (λ c, callerAt c = AtPut) callers → exclusive bucket callers svc.
Proof.
  intros Hall.
  assert (Hat : ∀ i c, callers !! i = Some c → callerAt c = AtPut).
  { intros i c Hi. by apply (Forall_lookup_1 _ _ _ _ Hall Hi). }
  split; [|split].
  - intros i c Hi. by rewrite (Hat i c Hi).
  - intros i c Hi. by rewrite (Hat i c Hi).
  - intros i j ci cj Hi Hj _. by rewrite (Hat i ci Hi).
Qed.

(** *** Exclusion when the last write is reported in a coarser resolution *)

Lemma wholeSeconds_lag t : (t - Second < wholeSeconds t)%Z ∧ (wholeSeconds t <= t)%Z.
Proof.
  unfold wholeSeconds.
  pose proof (Z.mod_pos_bound t Second eq_refl) as Hmod.
  pose proof (Z.div_mod t Second) as Hdiv.
  assert (Hne : Second ≠ 0%Z) by done. specialize (Hdiv Hne). lia.
Qed.

Section ExclusionAs.

Variable report : Time → Time.
Hypothesis report_lag : ∀ t, (t - Second < report t)%Z.
Variables (bucket : string) (a : tink.AEAD).

Lemma headAs_answer ctx req svc r svc' :
  oss.HeadObject (serviceClientAs report) ctx req svc = (r, svc') →
  clock svc' = clock svc ∧ objects svc' = objects svc.
Proof.
  simpl. unfold request, serveHeadAs.
  destruct (context.Done ctx (clock svc)); [by intros [= <- <-]|].
  destruct (faults svc) as [|[err|] rest]; simpl;
    try destruct (objects svc !! _); by intros [= <- <-].
Qed.

Lemma headAs_result ctx k svc result svc' :
  oss.HeadObject (serviceClientAs report) ctx (HeadObjectRequest.mk bucket k) svc
  = (Ok result, svc') →
  ∃ o, objects svc !! (bucket, k) = Some o
       ∧ HeadObjectResult.LastModified result = Some (report (Object.LastModified o)).
Proof.
  simpl. unfold request, serveHeadAs.
  destruct (context.Done ctx (clock svc)); [done|].
  destruct (faults svc) as [|[err|] rest]; simpl; try done;
    destruct (objects svc !! (bucket, k)) as [o|]; try done;
    intros [= <- <-]; by exists o.
Qed.

Lemma lockStepAs_clock_mono ctx key pt svc pt' svc' :
  lockStep (storageAs report bucket a) ctx key pt svc = (pt', svc') →
  (clock svc <= clock svc')%Z.
Proof.
  pose proof LockPollInterval_pos as Hpos.
  destruct pt; cbn [lockStep storageAs client].
  - destruct (oss.PutObject _ _ _ _) as [r svc1] eqn:Hput.
    destruct (put_answer _ _ _ _ _ Hput) as [Hc _].
    destruct r as [[]|err]; [|destruct (lockAlreadyExists err)];
      intros [= <- <-]; lia.
  - destruct (oss.HeadObject _ _ _ _) as [r svc1] eqn:Hh.
    destruct (headAs_answer _ _ _ _ _ Hh) as [Hc _].
    destruct r as [result|e]; [destruct (lockExpired _ _)|];
      intros [= <- <-]; lia.
  - destruct (oss.DeleteObject _ _ _ _) as [r svc1] eqn:Hdel.
    destruct (delete_answer _ _ _ _ _ Hdel) as [Hc _].
    destruct (lockDeleted r); intros [= <- <-]; lia.
  - simpl. unfold serviceSelect.
    destruct ctx as [|t|t]; try destruct (t <? clock svc + LockPollInterval)%Z;
      intros [= <- <-]; simpl; lia.
  - intros [= <- <-]. lia.
Qed.

Lemma runScheduleAs_clock_mono schedule : ∀ callers svc,
  (clock svc <= clock (runSchedule (storageAs report bucket a) schedule callers svc).2)%Z.
Proof.
  induction schedule as [|i rest IH]; intros callers svc; simpl; [lia|].
  destruct (callers !! i) as [c|]; [|apply IH].
  unfold stepCaller.
  destruct (lockStep _ _ _ _ svc) as [pt' svc1] eqn:Hstep.
  apply lockStepAs_clock_mono in Hstep. etrans; [exact Hstep|apply IH].
Qed.

(** One step of a caller that is not deleting a marker: either it is the
    conditional put that creates the marker, absent until then, and the
    caller returns [nil]; or the objects stay as they are, the caller does
    not newly return [nil], and it moves on to delete the marker only if
    the marker is expired, by the reported last write, at that instant. *)
Lemma lockStepAs_cases ctx key pt svc pt' svc' :
  lockStep (storageAs report bucket a) ctx key pt svc = (pt', svc') →
  pt ≠ AtDelete →
  (pt' = Returned None
   ∧ objects svc !! (bucket, key +:+ ".lock") = None
   ∧ objects svc' = <[(bucket, key +:+ ".lock") := Object.mk [] (clock svc)]> (objects svc))
  ∨ (objects svc' = objects svc
     ∧ (pt' = Returned None → pt = Returned None)
     ∧ (pt' = AtDelete →
        ∃ o, objects svc !! (bucket, key +:+ ".lock") = Some o
             ∧ (report (Object.LastModified o) + LockExpiration < clock svc')%Z)).
Proof.
  destruct pt; cbn [lockStep storageAs client]; intros Hstep Hpt; [| | done | |].
  - destruct (oss.PutObject _ _ _ _) as [r svc1] eqn:Hput.
    destruct (put_answer _ _ _ _ _ Hput) as [_ Ho].
    destruct r as [[]|err].
    + injection Hstep as <- <-. left.
      destruct (conditional_put_creates_once bucket a _ _ _ _ Hput) as [Hnone _].
      done.
    + right. destruct (lockAlreadyExists err); injection Hstep as <- <-; done.
  - destruct (oss.HeadObject _ _ _ _) as [r svc1] eqn:Hh.
    destruct (headAs_answer _ _ _ _ _ Hh) as [Hc Ho]. right.
    destruct r as [result|e]; [|by injection Hstep as <- <-].
    destruct (headAs_result _ _ _ _ _ Hh) as [o [Hk Hlm]].
    destruct (lockExpired result (Now svc1)) eqn:Hexp;
      injection Hstep as <- <-; (split; [done|]); (split; [done|]); [|done].
    intros _. exists o. split; [done|].
    unfold lockExpired in Hexp. rewrite Hlm in Hexp.
    unfold Before, Add in Hexp. by apply Z.ltb_lt in Hexp.
  - right. simpl in Hstep. unfold serviceSelect in Hstep.
    destruct ctx as [|t|t]; try destruct (t <? clock svc + LockPollInterval)%Z;
      injection Hstep as <- <-; done.
  - right. by injection Hstep as <- <-.
Qed.

Lemma stepCallerAs_exclusive t0 callers svc i c c' svc' :
  exclusive bucket callers svc →
  markersSince t0 bucket callers svc →
  (t0 <= clock svc)%Z →
  callers !! i = Some c →
  stepCaller (storageAs report bucket a) c svc = (c', svc') →
  (clock svc' <= t0 + LockExpiration - Second)%Z →
  exclusive bucket (<[i := c']> callers) svc' ∧ markersSince t0 bucket (<[i := c']> callers) svc'.
Proof.
  intros (Hnodel & Hheld & Hone) Hfresh Ht0 Hi Hstep Hbound.
  unfold stepCaller in Hstep.
  destruct (lockStep _ _ _ _ svc) as [pt' svc1] eqn:Hls.
  injection Hstep as <- <-.
  pose proof (lockStepAs_clock_mono _ _ _ _ _ _ Hls) as Hmono.
  apply lockStepAs_cases in Hls; [|by eapply Hnodel].
  assert (Hlen : i < length callers) by (by eapply lookup_lt_Some).
  assert (Hkeys : ∀ j cj, <[i := mkCaller (callerCtx c) (callerKey c) pt']> callers !! j
                          = Some cj →
                          ∃ cj', callers !! j = Some cj' ∧ callerKey cj' = callerKey cj).
  { intros j cj [(<- & <- & _)|[_ Hj]]%list_lookup_insert_Some; [by exists c|by exists cj]. }
  destruct Hls as [(-> & Hnone & Ho) | (Ho & Hret & Hdel)].
  - (* the caller created the marker *)
    split.
    2:{ intros j cj o Hj. destruct (Hkeys j cj Hj) as (cj' & Hj' & <-).
        rewrite Ho. intros [[_ <-]|[_ Hk]]%lookup_insert_Some; [simpl; lia|].
        by eapply Hfresh. }
    split; [|split].
    + intros j cj [(<- & <- & _)|[_ Hj]]%list_lookup_insert_Some; [done|by eapply Hnodel].
    + intros j cj [(<- & <- & _)|[_ Hj]]%list_lookup_insert_Some Hr; simpl in *;
        rewrite Ho.
      * rewrite lookup_insert_eq. by eexists.
      * destruct (Hheld j cj Hj Hr) as [o Hk].
        destruct (decide ((bucket, callerKey c +:+ ".lock")
                          = (bucket, callerKey cj +:+ ".lock"))) as [->|Hne].
        -- rewrite lookup_insert_eq. by eexists.
        -- rewrite lookup_insert_ne by done. by eexists.
    + intros j1 j2 c1 c2
        [(<- & <- & _)|[Hne1 Hj1]]%list_lookup_insert_Some
        [(<- & <- & _)|[Hne2 Hj2]]%list_lookup_insert_Some Hkey Hr1 Hr2;
        simpl in *; [done| | |by eapply Hone].
      * destruct (Hheld j2 c2 Hj2 Hr2) as [o Hk]. rewrite <- Hkey in Hk. congruence.
      * destruct (Hheld j1 c1 Hj1 Hr1) as [o Hk]. rewrite Hkey in Hk. congruence.
  - (* the objects are unchanged *)
    split.
    2:{ intros j cj o Hj. destruct (Hkeys j cj Hj) as (cj' & Hj' & <-).
        rewrite Ho. by eapply Hfresh. }
    split; [|split].
    + intros j cj [(<- & <- & _)|[_ Hj]]%list_lookup_insert_Some; [|by eapply Hnodel].
      simpl. intros Hat. destruct (Hdel Hat) as [o [Hk Hlt]].
      specialize (Hfresh _ _ _ Hi Hk). specialize (report_lag (Object.LastModified o)).
      lia.
    + intros j cj [(<- & <- & _)|[_ Hj]]%list_lookup_insert_Some Hr; simpl in *;
        rewrite Ho; [|by eapply Hheld].
      by apply (Hheld i c Hi), Hret.
    + intros j1 j2 c1 c2
        [(<- & <- & _)|[Hne1 Hj1]]%list_lookup_insert_Some
        [(<- & <- & _)|[Hne2 Hj2]]%list_lookup_insert_Some Hkey Hr1 Hr2;
        simpl in *; [done| | |by eapply Hone].
      * by apply (Hone i j2 c c2 Hi Hj2 Hkey (Hret Hr1) Hr2).
      * by apply (Hone j1 i c1 c Hj1 Hi Hkey Hr1 (Hret Hr2)).
Qed.

Lemma runScheduleAs_exclusive t0 schedule : ∀ callers svc,
  exclusive bucket callers svc →
  markersSince t0 bucket callers svc →
  (t0 <= clock svc)%Z →
  (clock (runSchedule (storageAs report bucket a) schedule callers svc).2
   <= t0 + LockExpiration - Second)%Z →
  exclusive bucket (runSchedule (storageAs report bucket a) schedule callers svc).1
    (runSchedule (storageAs report bucket a) schedule callers svc).2.
Proof.
  induction schedule as [|i rest IH]; intros callers svc Hex Hfresh Ht0 Hend;
    simpl in *; [done|].
  destruct (callers !! i) as [c|] eqn:Hi; [|by apply IH].
  destruct (stepCaller (storageAs report bucket a) c svc) as [c' svc1] eqn:Hstep.
  assert (Hmono1 : (clock svc <= clock svc1)%Z).
  { unfold stepCaller in Hstep.
    destruct (lockStep _ _ _ _ svc) as [pt' svc2] eqn:Hls.
    injection Hstep as <- <-. by eapply lockStepAs_clock_mono. }
  pose proof (runScheduleAs_clock_mono rest (<[i := c']> callers) svc1) as Hmono.
  destruct (stepCallerAs_exclusive t0 callers svc i c c' svc1)
    as [Hex1 Hfresh1]; try done; [lia|].
  apply IH; try done. lia.
Qed.

End ExclusionAs.

(** X12. Exclusion holds as long as no marker can look expired.  The
    service reports the last write of an object less than a second early
    (an HTTP date, in whole seconds, does; so does the exact instant).  Any
    number of callers that start at the top of [Lock] on one bucket, any
    keys, contexts, injected faults and any order of their requests: if the
    markers of the callers' keys that are in the bucket were written at
    [t0] or later and the run ends no later than
    [t0 + LockExpiration - Second], then no two callers of the same key have
    returned [nil], and every caller that returned [nil] has its marker on
    the service. *)
Theorem Lock_exclusive_before_lease_ends report bucket a t0 schedule callers svc :
  (∀ t, (t - Second < report t)%Z) →
  Forall (λ c, callerAt c = AtPut) callers →
  markersSince t0 bucket callers svc →
  (t0 <= clock svc)%Z →
  (clock (runSchedule (storageAs report bucket a) schedule callers svc).2
   <= t0 + LockExpiration - Second)%Z →
  (∀ i j ci cj,
      (runSchedule (storageAs report bucket a) schedule callers svc).1 !! i = Some ci →
      (runSchedule (storageAs report bucket a) schedule callers svc).1 !! j = Some cj →
      callerKey ci = callerKey cj →
      callerAt ci = Returned None → callerAt cj = Returned None → i = j)
  ∧ (∀ i c,
        (runSchedule (storageAs report bucket a) schedule callers svc).1 !! i = Some c →
        callerAt c = Returned None →
        is_Some (objects (runSchedule (storageAs report bucket a) schedule callers svc).2
                   !! (bucket, callerKey c +:+ ".lock"))).
Proof.
  intros Hlag Hstart Hfresh Ht0 Hend.
  destruct (runScheduleAs_exclusive report Hlag bucket a t0 schedule callers svc)
    as (_ & Hheld & Hone); try done.
  by apply exclusive_at_start.
Qed.

Lemma Lock_exclusive_before_lease_ends_witness :
  let s := storageAs wholeSeconds "b" cleartext in
  let callers := [mkCaller context.Background "r" AtPut;
                  mkCaller context.Background "r" AtPut;
                  mkCaller (context.WithCancel 9000000000) "q" AtPut] in
  let schedule := 0 :: 2 :: concat (replicate 59 [1; 1; 1]) in
  let svc := setObjects (emptyService 7500000000)
               {[ ("b", "r") := Object.mk (bytesOf "cert") 0;
                  ("other", "r.lock") := Object.mk [] 0 ]} in
  callerAt <$> (runSchedule s schedule callers svc).1 = [Returned None; AtPut; Returned None]
  ∧ clock (runSchedule s schedule callers svc).2 = (7500000000 + LockExpiration - Second)%Z
  ∧ (∀ i j ci cj,
        (runSchedule s schedule callers svc).1 !! i = Some ci →
        (runSchedule s schedule callers svc).1 !! j = Some cj →
        callerKey ci = callerKey cj →
        callerAt ci = Returned None → callerAt cj = Returned None → i = j)
  ∧ (∀ i c,
        (runSchedule s schedule callers svc).1 !! i = Some c →
        callerAt c = Returned None →
        is_Some (objects (runSchedule s schedule callers svc).2
                   !! ("b", callerKey c +:+ ".lock"))).
Proof.
  cbv zeta. split; [by vm_compute|]. split; [by vm_compute|].
  apply (Lock_exclusive_before_lease_ends wholeSeconds "b" cleartext 7500000000%Z).
  - intros t. apply wholeSeconds_lag.
  - repeat constructor.
  - intros i c o Hi Hk.
    destruct i as [|[|[|i]]]; simpl in Hi; [| | |done];
      injection Hi as <-; vm_compute in Hk; discriminate.
  - by vm_compute.
  - by vm_compute.
Defined.

(** The second taken off the lease is needed.  A marker written at 7.9 s
    is reported as written at 7 s; a caller that started at 8.5 s probes at
    67.5 s, finds 7 s + [LockExpiration] in the past, deletes the marker
    and returns [nil], 0.4 s before the lease of the holder runs out.  With
    the last write reported exactly, the same caller is still waiting. *)
Example Lock_reclaims_early_on_whole_seconds :
  let held := setObjects (emptyService 8500000000)
                {[ ("b", "r.lock") := Object.mk [] 7900000000 ]} in
  let early := Lock 61 (storageAs wholeSeconds "b" cleartext) context.Background "r" held in
  early.1 = Some None
  ∧ clock early.2 = 67500000000%Z
  ∧ (clock early.2 < 7900000000 + LockExpiration)%Z
  ∧ (Lock 61 (storageAs id "b" cleartext) context.Background "r" held).1 = None
  ∧ (Lock 61 (storageOn "b" cleartext) context.Background "r" held).1 = None.
Proof. by vm_compute. Qed.

(** ** Further properties of List *)

Lemma ListPages_fault bucket a ctx req err rest m : ∀ svc fuel tok fp tr names,
  context.Done ctx (clock svc) = false →
  0 < maxKeys svc →
  faults svc = replicate m None ++ Some err :: rest →
  fp || tr = true →
  m = 0 ∨ default 0 tok + m * maxKeys svc
          < length (listing svc (ListObjectsV2Request.Bucket req)
                      (ListObjectsV2Request.Prefix req)
                      (ListObjectsV2Request.Delimiter req)) →
  m < fuel →
  ListPages fuel (storageOn bucket a) ctx (oss.mkPaginator req tok fp tr) names svc
  = (Some (Err (Errorf "listing objects" err)), setFaults svc rest).
Proof.
  induction m as [|m IH]; intros svc fuel tok fp tr names Hd Hmax Hf Hnext Hpage Hfuel;
    (destruct fuel as [|fuel]; [lia|]);
    cbn [ListPages]; unfold oss.HasNext at 1; cbn [oss.firstPage oss.isTruncated];
    rewrite Hnext; unfold oss.NextPage;
    cbn [oss.request oss.continueToken client storageOn oss.ListObjectsV2 serviceClient];
    unfold request; rewrite Hd, Hf; cbn [replicate app]; [done|].
  unfold serveList.
  cbn [ListObjectsV2Request.Bucket ListObjectsV2Request.Prefix
       ListObjectsV2Request.Delimiter ListObjectsV2Request.ContinuationToken
       ListObjectsV2Result.Contents ListObjectsV2Result.IsTruncated
       ListObjectsV2Result.NextContinuationToken maxKeys setFaults].
  change (listing (setFaults svc (replicate m None ++ Some err :: rest)))
    with (listing svc).
  destruct Hpage as [|Hpage]; [done|]. rewrite Nat.mul_succ_l in Hpage.
  match goal with |- context [bool_decide ?P] => assert (HP : P) by (clear -Hpage; lia) end.
  rewrite (bool_decide_eq_true_2 _ HP).
  rewrite (IH (setFaults svc (replicate m None ++ Some err :: rest))); try done.
  - right. cbn [from_option id maxKeys setFaults].
    change (listing (setFaults svc (replicate m None ++ Some err :: rest)))
      with (listing svc). clear -Hpage. lia.
  - lia.
Qed.

(** X13. A failed page fails the whole listing.  On the service, when the
    request for one of the pages the listing needs fails (here the
    [m]+1-th request, the [m] before it being answered), [List] returns
    that error, wrapped, and none of the keys of the pages it had already
    received. *)
Theorem List_fails_with_the_failed_page bucket a ctx prefix (recursive : bool)
    svc m err rest fuel :
  context.Done ctx (clock svc) = false →
  0 < maxKeys svc →
  faults svc = replicate m None ++ Some err :: rest →
  m = 0 ∨ m * maxKeys svc
          < length (listing svc bucket prefix (if recursive then None else Some "/")) →
  m < fuel →
  List fuel (storageOn bucket a) ctx prefix recursive svc
  = (Some (Err (Errorf "listing objects" err)), setFaults svc rest).
Proof.
  intros Hd Hmax Hf Hpage Hfuel. unfold List, oss.NewListObjectsV2Paginator.
  cbn [ListObjectsV2Request.ContinuationToken bucketName storageOn].
  apply (ListPages_fault bucket a ctx _ err rest m); try done.
  cbn [ListObjectsV2Request.Bucket ListObjectsV2Request.Prefix
       ListObjectsV2Request.Delimiter default].
  destruct recursive; simpl in *; destruct Hpage; [by left|right; lia|by left|right; lia].
Qed.

Lemma List_fails_with_the_failed_page_witness :
  let s := storageOn "b" cleartext in
  let w1 := (Store s context.Background "certs/a.pem" [] (emptyService 0)).2 in
  let w2 := (Store s context.Background "certs/b.pem" [] w1).2 in
  let w3 := (Store s context.Background "certs/c.pem" [] w2).2 in
  let svc := {| objects := objects w3; clock := 5;
                faults := replicate 2 None ++ Some (ErrorString "i/o timeout") :: [];
                strictDelete := true; maxKeys := 1 |} in
  (2 = 0 ∨ 2 * maxKeys svc < length (listing svc "b" "certs/" (Some "/")))
  ∧ List 3 s context.Background "certs/" false svc
    = (Some (Err (Errorf "listing objects" (ErrorString "i/o timeout"))), setFaults svc []).
Proof.
  cbv zeta. split; [right; by vm_compute|].
  apply (List_fails_with_the_failed_page "b" cleartext context.Background "certs/" false
           _ 2 (ErrorString "i/o timeout") []);
    [reflexivity|simpl; lia|reflexivity|right; by vm_compute|lia].
Defined.

(** ** The Caddy module and the construction of a storage *)

Lemma eqb_empty_false (s : string) : String.eqb s "" = false ↔ s ≠ "".
Proof. by rewrite String.eqb_neq. Qed.

(** X14. [Validate] accepts a configuration exactly when the bucket name,
    the region, the access key id and the access key secret are all
    non-empty; the endpoint and the encryption key set are optional.  When
    it refuses, the error names the first missing field in that order. *)
Theorem Validate_requires_four_fields (s : CaddyStorageOSS.t) :
  (Validate s = None
   ↔ CaddyStorageOSS.BucketName s ≠ "" ∧ CaddyStorageOSS.Region s ≠ ""
     ∧ CaddyStorageOSS.AccessKeyID s ≠ "" ∧ CaddyStorageOSS.AccessKeySecret s ≠ "")
  ∧ (CaddyStorageOSS.BucketName s = "" →
     Validate s = Some (ErrorString "bucket name must be defined"))
  ∧ (CaddyStorageOSS.BucketName s ≠ "" → CaddyStorageOSS.Region s = "" →
     Validate s = Some (ErrorString "region must be defined"))
  ∧ (CaddyStorageOSS.BucketName s ≠ "" → CaddyStorageOSS.Region s ≠ "" →
     CaddyStorageOSS.AccessKeyID s = "" →
     Validate s = Some (ErrorString "access key id must be defined"))
  ∧ (CaddyStorageOSS.BucketName s ≠ "" → CaddyStorageOSS.Region s ≠ "" →
     CaddyStorageOSS.AccessKeyID s ≠ "" → CaddyStorageOSS.AccessKeySecret s = "" →
     Validate s = Some (ErrorString "access key secret must be defined")).
Proof.
  unfold Validate.
  destruct (String.eqb_spec (CaddyStorageOSS.BucketName s) "") as [Hb|Hb];
    [rewrite Hb; repeat split; try done; by intros (? & _)|].
  destruct (String.eqb_spec (CaddyStorageOSS.Region s) "") as [Hr|Hr];
    [rewrite Hr; repeat split; try done; by intros (_ & ? & _)|].
  destruct (String.eqb_spec (CaddyStorageOSS.AccessKeyID s) "") as [Hi|Hi];
    [rewrite Hi; repeat split; try done; by intros (_ & _ & ? & _)|].
  destruct (String.eqb_spec (CaddyStorageOSS.AccessKeySecret s) "") as [Hk|Hk];
    [rewrite Hk; repeat split; try done; by intros (_ & _ & _ & ?)|].
  repeat split; done.
Qed.

Lemma Validate_requires_four_fields_witness :
  Validate (CaddyStorageOSS.mk "bucket" "cn-hangzhou" "" "id" "secret" "") = None
  ∧ Validate (CaddyStorageOSS.mk "bucket" "" "oss-cn-hangzhou.aliyuncs.com" "id" "secret" "")
    = Some (ErrorString "region must be defined").
Proof.
  split.
  - apply (proj1 (Validate_requires_four_fields
                    (CaddyStorageOSS.mk "bucket" "cn-hangzhou" "" "id" "secret" ""))).
    by repeat split.
  - by apply (proj1 (proj2 (proj2 (Validate_requires_four_fields
                (CaddyStorageOSS.mk "bucket" "" "oss-cn-hangzhou.aliyuncs.com"
                   "id" "secret" ""))))).
Defined.

(** X15. The endpoint [NewStorage] hands to the client.  With an empty
    [Endpoint] no endpoint is set.  Otherwise the client gets an endpoint
    that starts with "http://" or "https://": the configured one when it
    already does, "https://" followed by the configured one when it does
    not.  Credentials, region and bucket name are passed on as they are,
    and the returned error is [nil]. *)
Theorem NewStorage_endpoint_has_a_scheme {W : Type}
    (NewClient : ClientConfig.t → oss.Client W) ctx (config : Config.t) :
  ∃ endpoint,
    NewStorage NewClient ctx config
    = (mkStorage
         (NewClient (ClientConfig.mk (Config.AccessKeyID config)
                       (Config.AccessKeySecret config) "" (Config.Region config) endpoint))
         (Config.BucketName config)
         (default cleartext (Config.AEAD config)), None)
    ∧ (Config.Endpoint config = "" → endpoint = None)
    ∧ (Config.Endpoint config ≠ "" →
       ∃ e, endpoint = Some e
            ∧ (HasPrefix e "http://" = true ∨ HasPrefix e "https://" = true)
            ∧ (HasPrefix (Config.Endpoint config) "http://" = true
               ∨ HasPrefix (Config.Endpoint config) "https://" = true →
               e = Config.Endpoint config)
            ∧ (HasPrefix (Config.Endpoint config) "http://" = false →
               HasPrefix (Config.Endpoint config) "https://" = false →
               e = "https://" +:+ Config.Endpoint config)).
Proof.
  unfold NewStorage.
  destruct (String.eqb_spec (Config.Endpoint config) "") as [He|He]; simpl.
  { eexists. split; [by destruct (Config.AEAD config)|]. split; [done|]. by intros []. }
  destruct (HasPrefix (Config.Endpoint config) "http://") eqn:H1; simpl.
  { eexists. split; [by destruct (Config.AEAD config)|]. split; [done|].
    intros _. eexists. split; [done|]. rewrite H1. split; [by left|]. split; done. }
  destruct (HasPrefix (Config.Endpoint config) "https://") eqn:H2; simpl.
  { eexists. split; [by destruct (Config.AEAD config)|]. split; [done|].
    intros _. eexists. split; [done|]. rewrite H2. split; [by right|].
    split; done. }
  eexists. split; [by destruct (Config.AEAD config)|]. split; [done|].
  intros _. eexists. split; [done|]. split.
  { right. unfold HasPrefix. apply String.prefix_correct. simpl.
    by destruct (Config.Endpoint config). }
  split; [by intros [|]|done].
Qed.

Lemma NewStorage_endpoint_has_a_scheme_witness :
  ∃ endpoint,
    NewStorage (λ _, serviceClient) context.Background
      (Config.mk None "bucket" "cn-hangzhou" "oss-cn-hangzhou.aliyuncs.com" "id" "secret")
    = (mkStorage serviceClient "bucket" (default cleartext None), None)
    ∧ endpoint = Some "https://oss-cn-hangzhou.aliyuncs.com".
Proof.
  destruct (NewStorage_endpoint_has_a_scheme (λ _, serviceClient) context.Background
              (Config.mk None "bucket" "cn-hangzhou" "oss-cn-hangzhou.aliyuncs.com"
                 "id" "secret"))
    as (endpoint & HN & _ & Hset).
  destruct (Hset ltac:(done)) as (e & -> & _ & _ & He).
  exists (Some e). split; [exact HN|]. f_equal. by apply He.
Defined.

(** X16. The codec of the storage a Caddy configuration gives.  Without
    [encryption-key-set] the storage is always returned and its codec is
    [cleartext]: on the service, [Store] through it writes the value as it
    is.  With [encryption-key-set], a storage is returned only if the file
    could be opened, the keyset read and the codec built from it, and the
    storage then holds that codec: there is no fall-back to [cleartext]. *)
Theorem CertMagicStorage_codec {File Handle : Type}
    (osOpen : string → Result File) (keysetRead : File → Result Handle)
    (aeadNew : Handle → Result tink.AEAD) (s : CaddyStorageOSS.t) :
  (CaddyStorageOSS.EncryptionKeySet s = "" →
   ∃ storage,
     CertMagicStorage osOpen keysetRead aeadNew (λ _, serviceClient) s = Ok storage
     ∧ aead storage = cleartext
     ∧ bucketName storage = CaddyStorageOSS.BucketName s
     ∧ ∀ ctx key v svc,
         context.Done ctx (clock svc) = false →
         faults svc = [] →
         ∃ svc',
           Store storage ctx key v svc = (None, svc')
           ∧ Object.Content <$> objects svc' !! (CaddyStorageOSS.BucketName s, key) = Some v)
  ∧ (CaddyStorageOSS.EncryptionKeySet s ≠ "" →
     ∀ storage,
       CertMagicStorage osOpen keysetRead aeadNew (λ _, serviceClient) s = Ok storage →
       ∃ f kh,
         osOpen (CaddyStorageOSS.EncryptionKeySet s) = Ok f
         ∧ keysetRead f = Ok kh
         ∧ aeadNew kh = Ok (aead storage)).
Proof.
  unfold CertMagicStorage, NewStorage. split.
  - intros ->. simpl.
    eexists. split; [done|]. split; [done|]. split; [done|].
    intros ctx key v svc Hd Hf.
    pose proof (Store_service (CaddyStorageOSS.BucketName s) cleartext ctx key v v svc
                  eq_refl Hd Hf) as HS.
    unfold storageOn in HS. rewrite HS.
    eexists. split; [reflexivity|]. simpl. by rewrite lookup_insert_eq.
  - intros Hset storage.
    destruct (CaddyStorageOSS.EncryptionKeySet s) as [|c path] eqn:Hpath; [done|].
    simpl.
    destruct (osOpen (String c path)) as [f|e] eqn:Hopen; [|done].
    destruct (keysetRead f) as [kh|e] eqn:Hread; [|done].
    destruct (aeadNew kh) as [kp|e] eqn:Hnew; [|done].
    simpl. intros [= <-]. by exists f, kh.
Qed.

Lemma CertMagicStorage_codec_witness :
  let s := CaddyStorageOSS.mk "bucket" "cn-hangzhou" "" "id" "secret" "" in
  ∃ storage,
    CertMagicStorage (File := unit) (Handle := unit)
      (λ _, Err (ErrorString "no such file")) (λ _, Ok tt) (λ _, Ok tagging)
      (λ _, serviceClient) s = Ok storage
    ∧ aead storage = cleartext
    ∧ bucketName storage = "bucket"
    ∧ ∀ ctx key v svc,
        context.Done ctx (clock svc) = false →
        faults svc = [] →
        ∃ svc',
          Store storage ctx key v svc = (None, svc')
          ∧ Object.Content <$> objects svc' !! ("bucket", key) = Some v.
Proof.
  apply (proj1 (CertMagicStorage_codec (File := unit) (Handle := unit)
                  (λ _, Err (ErrorString "no such file")) (λ _, Ok tt) (λ _, Ok tagging)
                  (CaddyStorageOSS.mk "bucket" "cn-hangzhou" "" "id" "secret" ""))).
  reflexivity.
Defined.

(** *** UnmarshalCaddyfile *)

Section DispenserAt.

(** The dispenser with its cursor on the token [t] at index [i]. *)
Variables (toks pre : list Token.t) (t : Token.t) (rest : list Token.t) (i : nat).
Hypothesis Htoks : toks = pre ++ t :: rest.
Hypothesis Hi : i = length pre.

Lemma Dispenser_lookup_at : toks !! i = Some t.
Proof. rewrite Htoks. by apply list_lookup_middle. Qed.

Lemma Dispenser_length : length toks = i + S (length rest).
Proof. rewrite Htoks, length_app, Hi. done. Qed.

Lemma Val_at : Dispenser.Val (Dispenser.mk toks (Z.of_nat i)) = Token.Text t.
Proof.
  unfold Dispenser.Val; simpl. pose proof Dispenser_length as Hlen.
  destruct (Z.ltb_spec (Z.of_nat i) 0); [lia|].
  destruct (Z.leb_spec (Z.of_nat (length toks)) (Z.of_nat i)); [lia|]. simpl.
  by rewrite Nat2Z.id, Dispenser_lookup_at.
Qed.

Lemma Next_at :
  Dispenser.Next (Dispenser.mk toks (Z.of_nat i))
  = match rest with
    | [] => (false, Dispenser.mk toks (Z.of_nat i))
    | _ :: _ => (true, Dispenser.mk toks (Z.of_nat (S i)))
    end.
Proof.
  unfold Dispenser.Next; simpl. pose proof Dispenser_length as Hlen.
  destruct rest as [|u rest']; simpl in Hlen.
  - destruct (Z.ltb_spec (Z.of_nat i) (Z.of_nat (length toks) - 1)); [lia|done].
  - destruct (Z.ltb_spec (Z.of_nat i) (Z.of_nat (length toks) - 1)); [|lia].
    do 2 f_equal. lia.
Qed.

Lemma NextArg_at :
  Dispenser.NextArg (Dispenser.mk toks (Z.of_nat i))
  = match rest with
    | [] => (false, Dispenser.mk toks (Z.of_nat i))
    | u :: _ =>
        if Token.Line t <? Token.Line u then (false, Dispenser.mk toks (Z.of_nat i))
        else if String.eqb (Token.Text u) "{" then (false, Dispenser.mk toks (Z.of_nat i))
        else (true, Dispenser.mk toks (Z.of_nat (S i)))
    end.
Proof.
  unfold Dispenser.NextArg, Dispenser.nextOnSameLine; simpl.
  pose proof Dispenser_length as Hlen. pose proof Dispenser_lookup_at as Hcur.
  destruct (Z.ltb_spec (Z.of_nat i) 0); [lia|].
  destruct rest as [|u rest'] eqn:Hrest; simpl in Hlen.
  { destruct (Z.leb_spec (Z.of_nat (length toks) - 1) (Z.of_nat i)); [done|lia]. }
  destruct (Z.leb_spec (Z.of_nat (length toks) - 1) (Z.of_nat i)); [lia|].
  rewrite Nat2Z.id, Hcur.
  replace (Z.to_nat (Z.of_nat i + 1)) with (S i) by lia.
  assert (Hu : toks !! S i = Some u).
  { rewrite Htoks, Hi. rewrite (lookup_app_r pre) by lia.
    by replace (S (length pre) - length pre) with 1 by lia. }
  rewrite Hu. unfold Dispenser.isNextOnNewLine.
  destruct (Token.Line t <? Token.Line u); simpl; [done|].
  assert (Hval : Dispenser.Val (Dispenser.mk toks (Z.of_nat i + 1)) = Token.Text u).
  { unfold Dispenser.Val; simpl.
    destruct (Z.ltb_spec (Z.of_nat i + 1) 0); [lia|].
    destruct (Z.leb_spec (Z.of_nat (length toks)) (Z.of_nat i + 1)); [lia|]. simpl.
    replace (Z.to_nat (Z.of_nat i + 1)) with (S i) by lia. by rewrite Hu. }
  rewrite Hval. destruct (String.eqb (Token.Text u) "{"); do 2 f_equal; lia.
Qed.

End DispenserAt.

Lemma directiveTokens_first line directives :
  ∃ u rest, directiveTokens line directives = u :: rest ∧ Token.Line u = S line.
Proof. destruct directives as [|[k v] r]; simpl; by eexists _, _. Qed.

(** From the token before the first remaining directive on: every
    remaining directive is applied in turn, then the closing brace ends the
    loop. *)
Lemma UnmarshalCaddyfile_directives directives : ∀ pre t line s fuel,
  Forall (λ kv, kv.2 ≠ "{") directives →
  length directives + 2 ≤ fuel →
  ∃ d,
    UnmarshalCaddyfile fuel s
      (Dispenser.mk (pre ++ t :: directiveTokens line directives) (Z.of_nat (length pre)))
    = Some (foldl (λ s kv, setDirective kv.1 kv.2 s) s directives, None, d).
Proof.
  induction directives as [|[k v] r IH]; intros pre t line s fuel Hval Hfuel.
  - destruct fuel as [|[|fuel]]; simpl in Hfuel; [lia|lia|].
    cbn [UnmarshalCaddyfile directiveTokens].
    rewrite (Next_at _ pre t [Token.mk "}" (S line)] (length pre) eq_refl eq_refl).
    unfold Dispenser.Args.
    rewrite (NextArg_at _ (pre ++ [t]) (Token.mk "}" (S line)) [] (S (length pre)));
      [|by rewrite <- app_assoc|rewrite length_app; simpl; lia].
    rewrite (Next_at _ (pre ++ [t]) (Token.mk "}" (S line)) [] (S (length pre)));
      [|by rewrite <- app_assoc|rewrite length_app; simpl; lia].
    by eexists.
  - destruct fuel as [|fuel]; simpl in Hfuel; [lia|].
    apply Forall_cons in Hval as [Hv Hval]. simpl in Hv.
    cbn [UnmarshalCaddyfile directiveTokens].
    rewrite (Next_at _ pre t (Token.mk k (S line) :: Token.mk v (S line)
                                :: directiveTokens (S line) r) (length pre) eq_refl eq_refl).
    rewrite (Val_at _ (pre ++ [t]) (Token.mk k (S line))
               (Token.mk v (S line) :: directiveTokens (S line) r) (S (length pre)));
      [|by rewrite <- app_assoc|rewrite length_app; simpl; lia].
    unfold Dispenser.Args.
    rewrite (NextArg_at _ (pre ++ [t]) (Token.mk k (S line))
               (Token.mk v (S line) :: directiveTokens (S line) r) (S (length pre)));
      [|by rewrite <- app_assoc|rewrite length_app; simpl; lia].
    cbn [Token.Line Token.Text]. rewrite Nat.ltb_irrefl.
    apply String.eqb_neq in Hv. rewrite Hv.
    rewrite (Val_at _ (pre ++ [t; Token.mk k (S line)]) (Token.mk v (S line))
               (directiveTokens (S line) r) (S (S (length pre))));
      [|by rewrite <- app_assoc|rewrite length_app; simpl; lia].
    cbn [Token.Text foldl fst snd].
    destruct (IH (pre ++ [t; Token.mk k (S line)]) (Token.mk v (S line)) (S line)
                (setDirective k v s) fuel Hval ltac:(lia)) as [d Hd].
    exists d. rewrite <- Hd. do 2 f_equal.
    + by rewrite <- app_assoc.
    + rewrite length_app. simpl. lia.
Qed.

(** X17. Reading a storage block.  For a block [name { ... }] whose body
    has one directive per line, a key and a value that is not an opening
    brace, [UnmarshalCaddyfile] returns [nil] and the configuration in
    which every directive has been applied in order of appearance: a later
    directive for the same key replaces an earlier one, a key that is not
    one of the six known keys changes nothing, and the fields no directive
    names keep their value. *)
Theorem UnmarshalCaddyfile_applies_directives name directives s fuel :
  Forall (λ kv, kv.2 ≠ "{") directives →
  length directives + 4 ≤ fuel →
  ∃ d,
    UnmarshalCaddyfile fuel s (Dispenser.NewDispenser (blockTokens name directives))
    = Some (foldl (λ s kv, setDirective kv.1 kv.2 s) s directives, None, d).
Proof.
  intros Hval Hfuel.
  destruct fuel as [|[|fuel]]; [lia|lia|].
  destruct (directiveTokens_first 0 directives) as (u & rest & Hu & Hline).
  cbn [UnmarshalCaddyfile]. unfold Dispenser.NewDispenser, blockTokens.
  set (toks := Token.mk name 0 :: Token.mk "{" 0 :: directiveTokens 0 directives).
  assert (Hstart : Dispenser.Next (Dispenser.mk toks (-1))
                   = (true, Dispenser.mk toks (Z.of_nat 0))).
  { unfold Dispenser.Next, toks; simpl Dispenser.cursor; simpl Dispenser.tokens.
    cbn [length].
    destruct (Z.ltb_spec (-1)
                (Z.of_nat (S (S (length (directiveTokens 0 directives)))) - 1));
      [done|lia]. }
  rewrite Hstart. unfold Dispenser.Args.
  rewrite (NextArg_at toks [] (Token.mk name 0)
             (Token.mk "{" 0 :: directiveTokens 0 directives) 0 eq_refl eq_refl).
  cbn [Token.Line Token.Text]. rewrite Nat.ltb_irrefl, String.eqb_refl.
  rewrite (Next_at toks [] (Token.mk name 0)
             (Token.mk "{" 0 :: directiveTokens 0 directives) 0 eq_refl eq_refl).
  rewrite (NextArg_at toks [Token.mk name 0] (Token.mk "{" 0)
             (directiveTokens 0 directives) 1 eq_refl eq_refl).
  rewrite Hu, Hline. cbn [Token.Line]. change (0 <? 1) with true. cbv iota.
  apply (UnmarshalCaddyfile_directives directives [Token.mk name 0] (Token.mk "{" 0) 0 s fuel);
    [done|lia].
Qed.

Lemma UnmarshalCaddyfile_applies_directives_witness :
  let directives := [("bucket-name", "certs"); ("colour", "red");
                     ("access-key-id", "id"); ("bucket-name", "prod-certs")] in
  Forall (λ kv : string * string, kv.2 ≠ "{") directives
  ∧ ∃ d,
      UnmarshalCaddyfile 8 (CaddyStorageOSS.mk "" "cn-hangzhou" "" "" "" "")
        (Dispenser.NewDispenser (blockTokens "oss" directives))
      = Some (CaddyStorageOSS.mk "prod-certs" "cn-hangzhou" "" "id" "" "", None, d).
Proof.
  cbv zeta.
  assert (Hval : Forall (λ kv : string * string, kv.2 ≠ "{")
                   [("bucket-name", "certs"); ("colour", "red");
                    ("access-key-id", "id"); ("bucket-name", "prod-certs")])
    by (repeat constructor; done).
  split; [exact Hval|].
  exact (UnmarshalCaddyfile_applies_directives "oss" _
           (CaddyStorageOSS.mk "" "cn-hangzhou" "" "" "" "") 8 Hval ltac:(simpl; lia)).
Defined.

(** ** Errors that are not "not found" *)

(** X18. [Stat] does not take a failure for a missing key.  For any
    client, a [HeadObject] error without the code "NoSuchKey" is returned
    wrapped, with the zero [KeyInfo], and it is [fs.ErrNotExist] for
    [errors.Is] only if the client's error was.  On the service, [Stat] of
    a key that holds an object, under a context that is done, returns the
    context's error and not [fs.ErrNotExist], where [Exists] answers
    false. *)
Theorem Stat_keeps_other_errors :
  (∀ W (s : Storage W) ctx key w err w',
      oss.HeadObject (client s) ctx (HeadObjectRequest.mk (bucketName s) key) w
      = (Err err, w') →
      hasErrorCode err "NoSuchKey" = false →
      ∃ e, Stat s ctx key w = (KeyInfo.zero, Some e, w')
           ∧ errors.Is e ErrNotExist = errors.Is err ErrNotExist
           ∧ errors.Is e Canceled = errors.Is err Canceled)
  ∧ (∀ bucket a ctx key svc o,
        objects svc !! (bucket, key) = Some o →
        context.Done ctx (clock svc) = true →
        ∃ e, Stat (storageOn bucket a) ctx key svc = (KeyInfo.zero, Some e, svc)
             ∧ errors.Is e ErrNotExist = false
             ∧ errors.Is e (context.Err ctx) = true
             ∧ Exists (storageOn bucket a) ctx key svc = (false, svc)).
Proof.
  split.
  - intros W s ctx key w err w' Hh Hcode. unfold Stat. rewrite Hh, Hcode.
    by eexists.
  - intros bucket a ctx key svc o Ho Hd. unfold Stat, Exists; simpl.
    rewrite request_done by done.
    assert (Hcode : hasErrorCode (Errorf "operation error" (context.Err ctx)) "NoSuchKey"
                    = false) by (by destruct ctx).
    rewrite Hcode. eexists. split; [done|]. by destruct ctx.
Qed.

Lemma Stat_keeps_other_errors_witness :
  let s := storageOn "b" cleartext in
  let stored := (Store s context.Background "k" (bytesOf "data") (emptyService 5)).2 in
  objects stored !! ("b", "k") = Some (Object.mk (bytesOf "data") 5)
  ∧ ∃ e, Stat s (context.WithDeadline 3) "k" stored = (KeyInfo.zero, Some e, stored)
         ∧ errors.Is e ErrNotExist = false
         ∧ errors.Is e (context.Err (context.WithDeadline 3)) = true
         ∧ Exists s (context.WithDeadline 3) "k" stored = (false, stored).
Proof.
  cbv zeta. split; [reflexivity|].
  apply (proj2 Stat_keeps_other_errors "b" cleartext (context.WithDeadline 3) "k"
           (Store (storageOn "b" cleartext) context.Background "k" (bytesOf "data")
              (emptyService 5)).2 (Object.mk (bytesOf "data") 5));
    reflexivity.
Defined.

(** ** What [Lock] can return *)

(** X19. The errors of [Lock].  For any client and runtime, a [Lock] that
    returns an error returns either [ctx.Err()], from one of its waits, or
    the error of a conditional put that was not "already exists", wrapped
    as "creating lock ...".  An "already exists" answer and the errors of
    the probe and of the reclaim are never returned. *)
Theorem Lock_returns_only_put_or_context_errors {W : Type} `{!Runtime W}
    (s : Storage W) ctx key fuel : ∀ w e w',
  Lock fuel s ctx key w = (Some (Some e), w') →
  e = context.Err ctx
  ∨ ∃ err, e = Errorf ("creating lock " +:+ (key +:+ ".lock")) err
           ∧ lockAlreadyExists err = false.
Proof.
  induction fuel as [|fuel IH]; intros w e w' HL; [discriminate|].
  rewrite Lock_turn in HL.
  assert (Hwait : ∀ w2, lockWait fuel s ctx key w2 = (Some (Some e), w') →
            e = context.Err ctx
            ∨ ∃ err, e = Errorf ("creating lock " +:+ (key +:+ ".lock")) err
                     ∧ lockAlreadyExists err = false).
  { intros w2. unfold lockWait.
    destruct (SelectAfterOrDone ctx LockPollInterval w2) as [[] w3]; [by apply IH|].
    intros [= <- <-]. by left. }
  destruct (oss.PutObject (client s) ctx (lockPutRequest s key) w)
    as [[[]|err] w1]; [done|].
  destruct (lockAlreadyExists err) eqn:Hae; cycle 1.
  { injection HL as <- <-. right. by exists err. }
  destruct (oss.HeadObject (client s) ctx (lockHeadRequest s key) w1)
    as [[result|e0] w2]; [|by apply (Hwait w2)].
  destruct (lockExpired result (Now w2)); [|by apply (Hwait w2)].
  destruct (oss.DeleteObject (client s) ctx (lockDeleteRequest s key) w2)
    as [deleted w3].
  destruct (lockDeleted deleted); [by apply (IH w3 e w')|by apply (Hwait w3)].
Qed.

Lemma Lock_returns_only_put_or_context_errors_witness :
  let s := storageOn "b" cleartext in
  let expired := setObjects (emptyService (2 * Minute))
                   {[ ("b", "r.lock") := Object.mk [] 0 ]} in
  let svc := setFaults expired
               [None; None; Some (ErrorString "access denied");
                Some (ErrorString "connection reset")] in
  Lock 2 s context.Background "r" svc
  = (Some (Some (Errorf "creating lock r.lock" (ErrorString "connection reset"))),
     setClock expired (2 * Minute + LockPollInterval))
  ∧ (Errorf "creating lock r.lock" (ErrorString "connection reset")
     = context.Err context.Background
     ∨ ∃ err, Errorf "creating lock r.lock" (ErrorString "connection reset")
              = Errorf ("creating lock " +:+ ("r" +:+ ".lock")) err
              ∧ lockAlreadyExists err = false).
Proof.
  cbv zeta. split; [by vm_compute|].
  apply (Lock_returns_only_put_or_context_errors (storageOn "b" cleartext)
           context.Background "r" 2
           (setFaults (setObjects (emptyService (2 * Minute))
                         {[ ("b", "r.lock") := Object.mk [] 0 ]})
              [None; None; Some (ErrorString "access denied");
               Some (ErrorString "connection reset")])
           _
           (setClock (setObjects (emptyService (2 * Minute))
                        {[ ("b", "r.lock") := Object.mk [] 0 ]})
              (2 * Minute + LockPollInterval))).
  by vm_compute.
Defined.

(** X20. [Lock] under a context that is already done.  On the service the
    conditional put is refused with the context's error, which is not
    "already exists": [Lock] returns it at once, wrapped, and the service
    is as before; no marker is created and none is deleted. *)
Theorem Lock_with_done_context bucket a ctx key fuel svc :
  context.Done ctx (clock svc) = true →
  ∃ e,
    Lock (S fuel) (storageOn bucket a) ctx key svc = (Some (Some e), svc)
    ∧ errors.Is e (context.Err ctx) = true.
Proof.
  intros Hd. rewrite Lock_turn. cbn [client storageOn oss.PutObject serviceClient].
  rewrite request_done by done.
  assert (Hae : lockAlreadyExists (Errorf "operation error" (context.Err ctx)) = false)
    by (by destruct ctx).
  rewrite Hae. eexists. split; [done|]. by destruct ctx.
Qed.

Lemma Lock_with_done_context_witness :
  let svc := setObjects (emptyService 10) {[ ("b", "r.lock") := Object.mk [] 9 ]} in
  context.Done (context.WithCancel 4) (clock svc) = true
  ∧ ∃ e,
      Lock 1 (storageOn "b" cleartext) (context.WithCancel 4) "r" svc = (Some (Some e), svc)
      ∧ errors.Is e (context.Err (context.WithCancel 4)) = true.
Proof.
  cbv zeta. split; [reflexivity|].
  apply (Lock_with_done_context "b" cleartext (context.WithCancel 4) "r" 0). reflexivity.
Defined.
